(** * Explainability endpoints of the absenteeism model (explainability.py)

    A shallow embedding of [explainability.py]: the background sampler, the
    7-day explanation cache and the four endpoints (global, local, lime,
    counterfactual), followed by the properties the specification states
    about them.

    Conventions of the embedding.
    - Python and numpy floats are read as real numbers ([R]); [float(x)] is
      the identity.  The counterfactual search is read a second time over
      IEEE binary64 numbers, for the one property that depends on rounding:
      the distance of a candidate.
    - [numpy.random] is a global generator: its state is threaded explicitly.
    - An exception is a result [Raise msg], where [msg] is what [str(e)]
      gives; every endpoint catches it at its boundary.
    - The collaborators imported from [app] (model, scaler, schema,
      preprocessor) and the shap and lime libraries are fields of an
      environment record [Env]. *)

From Stdlib Require Import Floats.
From Stdlib Require Import Reals Lra Lia ZArith String Ascii Bool List.
From Stdlib Require Import DecimalString DecimalNat Sorted Permutation.
Import ListNotations.

Open Scope string_scope.
Open Scope list_scope.
Open Scope Z_scope.
Open Scope R_scope.

(** ** Results, exceptions and the generator state *)

Inductive res (A : Type) : Type :=
| Ok (a : A)
| Raise (msg : string).
Arguments Ok {A} a.
Arguments Raise {A} msg.

(** State of numpy's global random generator. *)
Definition rng := nat.

(** Computations that read and advance the generator and may raise.  The
    generator keeps the state it reached when an exception is raised. *)
Definition M (A : Type) : Type := rng -> res A * rng.

Definition ret {A} (a : A) : M A := fun g => (Ok a, g).
Definition raise {A} (msg : string) : M A := fun g => (Raise msg, g).
Definition lift {A} (r : res A) : M A := fun g => (r, g).
Definition draw {A} (d : rng -> A * rng) : M A :=
  fun g => let (a, g') := d g in (Ok a, g').
Definition bind {A B} (m : M A) (k : A -> M B) : M B :=
  fun g =>
    match m g with
    | (Ok a, g') => k a g'
    | (Raise e, g') => (Raise e, g')
    end.

Notation "x <- m ;; k" := (bind m (fun x => k))
  (at level 61, m at next level, right associativity).

(** ** Data *)

(** A vector, a matrix (the list of its rows) and a raw input (the dict
    from feature name to raw value). *)
Abbreviation row := (list R) (only parsing).
Abbreviation matrix := (list (list R)) (only parsing).
Abbreviation sample := (list (string * R)) (only parsing).

Record Model := {
  predict : matrix -> res (list R);   (* model.predict(X) *)
  has_coef : bool                      (* hasattr(model, 'coef_') *)
}.

Record Scaler := {
  transform : matrix -> res matrix     (* scaler.transform(X) *)
}.

Record Explainer := {
  shap_values : matrix -> res matrix;  (* explainer.shap_values(X), X 2-d *)
  shap_values_1d : row -> res row      (* explainer.shap_values(x), x 1-d *)
}.

(** What lime's [as_list] names a feature by. *)
Inductive lime_id :=
| IdIndex (i : nat)
| IdName (s : string).

Record LimeExplanation := {
  as_list : list (lime_id * R);
  score : R
}.

Record LimeExplainer := {
  (* explainer.explain_instance(x, model.predict, num_features=k) *)
  explain_instance : list R -> Model -> nat -> M LimeExplanation
}.

Record Env := {
  model : option Model;
  scaler : option Scaler;
  feature_columns : option (list string);
  preprocess_input : sample -> res row;     (* a one-row DataFrame *)
  SHAP_AVAILABLE : bool;
  LIME_AVAILABLE : bool;
  LinearExplainer : Model -> matrix -> res Explainer;
  (* lime_tabular.LimeTabularExplainer(background, feature_names=...,
       mode='regression', discretize_continuous=False) *)
  LimeTabularExplainer : matrix -> list string -> res LimeExplainer;
  uniform : R -> R -> rng -> R * rng;       (* np.random.uniform(lo, hi) *)
  choice : list R -> rng -> R * rng;        (* np.random.choice(values) *)
  format_2f : R -> string                   (* f"{x:.2f}" *)
}.

Definition CACHE_TTL_DAYS : Z := 7.

(** ** Small list and array helpers *)

(** [feat in feature_columns] *)
Definition mem (feat : string) (cols : list string) : bool :=
  existsb (String.eqb feat) cols.

(** [feature_columns.index(feat)], used only after [feat in feature_columns]. *)
Fixpoint index (feat : string) (cols : list string) : nat :=
  match cols with
  | [] => 0%nat
  | c :: cs => if String.eqb c feat then 0%nat else S (index feat cs)
  end.

(** [l[i]]: IndexError when out of range. *)
Definition get {A} (l : list A) (i : nat) : res A :=
  match nth_error l i with
  | Some a => Ok a
  | None => Raise "index out of range"
  end.

Fixpoint draw_many {A} (d : rng -> A * rng) (n : nat) (g : rng)
  : list A * rng :=
  match n with
  | O => ([], g)
  | S n' =>
      let (a, g1) := d g in
      let (l, g2) := draw_many d n' g1 in
      (a :: l, g2)
  end.

(** A size-[n] draw, as [np.random.uniform(lo, hi, n)]: numpy refuses a
    negative size. *)
Definition draw_array (d : rng -> R * rng) (n : Z) : M (list R) :=
  if (n <? 0)%Z then raise "negative dimensions are not allowed"
  else draw (draw_many d (Z.to_nat n)).

(** [np.vstack([a, b])]: the row widths must agree. *)
Definition vstack (a b : matrix) : res matrix :=
  match a, b with
  | ra :: _, rb :: _ =>
      if Nat.eqb (length ra) (length rb) then Ok (a ++ b)%list
      else Raise "all the input array dimensions must match exactly"
  | _, _ => Ok (a ++ b)%list
  end.

(** ** Background sampler *)

Definition numeric_features : list (string * (R * R)) :=
  [ ("Age", (25, 60));
    ("Service time", (1, 20));
    ("Work load Average/day ", (200, 350));
    ("Transportation expense", (100, 400));
    ("Distance from Residence to Work", (1, 50)) ].

Definition categorical_defaults : list (string * list R) :=
  [ ("Education", [1; 2; 3]);
    ("Son", [0; 1; 2; 3]);
    ("Month of absence", [1; 2; 3; 4; 5; 6; 7; 8; 9; 10; 11; 12]);
    ("Day of the week", [2; 3; 4; 5; 6]);
    ("Seasons", [1; 2; 3; 4]);
    ("Hit target", [0; 1]);
    ("Disciplinary failure", [0; 1]);
    ("Social drinker", [0; 1]);
    ("Social smoker", [0; 1]);
    ("Pet", [0; 1]);
    ("Reason for absence", [0; 5; 10; 15; 20; 25]) ].

(** [for feat, v in items.items(): if feat in feature_columns: d[feat] = f(v)] *)
Fixpoint fill {V X} (cols : list string) (items : list (string * V))
    (f : V -> M X) : M (list (string * X)) :=
  match items with
  | [] => ret []
  | (feat, v) :: rest =>
      if mem feat cols then
        x <- f v ;;
        d <- fill cols rest f ;;
        ret ((feat, x) :: d)
      else fill cols rest f
  end.

(** [pd.DataFrame(synthetic_data).iloc[0].to_dict()]: the first entry of
    every column; IndexError on a frame without rows. *)
Fixpoint first_row (df : list (string * list R)) : res sample :=
  match df with
  | [] => Ok []
  | (feat, []) :: _ => Raise "single positional indexer is out-of-bounds"
  | (feat, x :: _) :: rest =>
      match first_row rest with
      | Ok d => Ok ((feat, x) :: d)
      | Raise e => Raise e
      end
  end.

Definition iloc0 (df : list (string * list R)) : res sample :=
  match df with
  | [] => Raise "single positional indexer is out-of-bounds"
  | _ => first_row df
  end.

(** One synthetic sample: a scalar draw per known feature of the schema. *)
Definition draw_sample (E : Env) (cols : list string) : M sample :=
  num <- fill cols numeric_features
           (fun '(min_val, max_val) => draw (uniform E min_val max_val)) ;;
  cat <- fill cols categorical_defaults
           (fun values => draw (choice E values)) ;;
  ret (num ++ cat)%list.

(** The loop [for i in range(n_samples)], [k] iterations left, with the
    rows stacked so far. *)
Fixpoint sample_loop (E : Env) (cols : list string) (k : nat)
    (background_samples : matrix) : M matrix :=
  match k with
  | O => ret background_samples
  | S k' =>
      sample <- draw_sample E cols ;;
      processed_sample <- lift (preprocess_input E sample) ;;
      if Nat.eqb (length background_samples) 0 then
        sample_loop E cols k' [processed_sample]
      else
        stacked <- lift (vstack background_samples [processed_sample]) ;;
        sample_loop E cols k' stacked
  end.

(** [generate_background_data(n_samples)]; [None] is the "unavailable"
    signal. *)
Definition generate_background_data (E : Env) (n_samples : Z)
  : M (option matrix) :=
  match feature_columns E with
  | None => ret None
  | Some [] => ret None
  | Some cols =>
      num <- fill cols numeric_features
               (fun '(min_val, max_val) =>
                  draw_array (uniform E min_val max_val) n_samples) ;;
      cat <- fill cols categorical_defaults
               (fun values => draw_array (choice E values) n_samples) ;;
      first <- lift (iloc0 (num ++ cat)%list) ;;
      _ <- lift (preprocess_input E first) ;;
      background_samples <- sample_loop E cols (Z.to_nat n_samples) [] ;;
      match scaler E with
      | Some s =>
          background_scaled <- lift (transform s background_samples) ;;
          ret (Some background_scaled)
      | None => ret (Some background_samples)
      end
  end.

(** [get_shap_explainer()]: an exception of the explainer's constructor is
    caught and gives [None]; one of the background sampler is not. *)
Definition get_shap_explainer (E : Env) : M (option Explainer) :=
  if negb (SHAP_AVAILABLE E) then ret None
  else
    match model E, scaler E with
    | Some m, Some _ =>
        if has_coef m then
          background <- generate_background_data E 100 ;;
          match background with
          | Some bg =>
              match LinearExplainer E m bg with
              | Ok explainer => ret (Some explainer)
              | Raise _ => ret None
              end
          | None => ret None
          end
        else ret None
    | _, _ => ret None
    end.

(** ** Pure results: sequencing and traversal *)

Definition and_then {A B} (r : res A) (k : A -> res B) : res B :=
  match r with
  | Ok a => k a
  | Raise e => Raise e
  end.

Notation "x <-- r ;; k" := (and_then r (fun x => k))
  (at level 61, r at next level, right associativity).

Fixpoint for_each {A B} (f : A -> res B) (l : list A) : res (list B) :=
  match l with
  | [] => Ok []
  | a :: l' =>
      b <-- f a ;;
      bs <-- for_each f l' ;;
      Ok (b :: bs)
  end.

(** ** Numeric helpers (numpy) *)

Definition Rltb (x y : R) : bool := if Rlt_dec x y then true else false.
Definition Reqb (x y : R) : bool := if Req_dec_T x y then true else false.

Definition sum (l : list R) : R := fold_right Rplus 0 l.

(** [np.mean] *)
Definition mean (l : list R) : R := sum l / INR (length l).

(** [np.std]: the population standard deviation. *)
Definition std (l : list R) : R :=
  sqrt (mean (map (fun x => (x - mean l) * (x - mean l)) l)).

(** [np.linalg.norm] of a vector. *)
Definition norm (v : list R) : R := sqrt (sum (map (fun x => x * x) v)).

(** [a - b] on arrays of the same shape. *)
Fixpoint vsub (a b : list R) : list R :=
  match a, b with
  | x :: a', y :: b' => (x - y) :: vsub a' b'
  | _, _ => []
  end.

(** [m[:, i]] *)
Definition column (m : matrix) (i : nat) : res (list R) :=
  for_each (fun r => get r i) m.

(** [np.mean(m, axis=0)] for a rectangular [m]. *)
Definition mean_axis0 (m : matrix) : list R :=
  map (fun i => mean (map (fun r => nth i r 0) m))
      (seq 0 (length (hd [] m))).

(** [v = a.copy(); v[i] = x] *)
Fixpoint set_item (a : list R) (i : nat) (x : R) : res (list R) :=
  match a, i with
  | [], _ => Raise "index out of bounds"
  | _ :: a', O => Ok (x :: a')
  | y :: a', S i' => v <-- set_item a' i' x ;; Ok (y :: v)
  end.

(** ** Sorting

    [list.sort] is stable and compares keys with [<] only; with
    [reverse=True] equal keys still keep their order.  [precedes y x] says
    that [y] must come strictly before [x]. *)

Fixpoint insert {A} (precedes : A -> A -> bool) (x : A) (l : list A)
  : list A :=
  match l with
  | [] => [x]
  | y :: l' =>
      if precedes y x then y :: insert precedes x l' else x :: y :: l'
  end.

Definition sort {A} (precedes : A -> A -> bool) (l : list A) : list A :=
  fold_right (insert precedes) [] l.

(** [sort(key=k, reverse=True)] *)
Definition key_desc {A} (k : A -> R) (y x : A) : bool := Rltb (k x) (k y).

(** [<] on pairs of floats, as Python compares tuples. *)
Definition pair_lt (a b : R * R) : bool :=
  if Reqb (fst a) (fst b) then Rltb (snd a) (snd b)
  else Rltb (fst a) (fst b).

(** ** Explanation cache

    Times are microseconds on the naive local clock, the resolution of
    [datetime].  The cache file is described by what [json.load] and
    [datetime.fromisoformat] make of it. *)

Record explanation := {
  feature_importance : list (string * R);   (* feature, mean_abs_shap *)
  explainer_type : string;
  sample_size : Z;
  cached : bool
}.

Inductive stamp :=
| StampAbsent            (* no 'timestamp' key *)
| StampInvalid           (* not an ISO-8601 string: fromisoformat raises *)
| StampNaive (t : Z)     (* an ISO-8601 time without UTC offset *)
| StampAware (t : Z).    (* an ISO-8601 time with a UTC offset *)

Inductive cache_file :=
| NoFile
| Unreadable             (* cannot be opened, or is not a JSON object *)
| CacheDoc (timestamp : stamp) (expl : option explanation).

Record filesystem := {
  cache : cache_file;
  writable : bool          (* whether open(CACHE_FILE, 'w') succeeds *)
}.

Inductive datetime :=
| Naive (t : Z)
| Aware (t : Z).

Definition microseconds_per_day : Z := 86400 * 1000000.

(** [timedelta(days=CACHE_TTL_DAYS)] *)
Definition ttl : Z := CACHE_TTL_DAYS * microseconds_per_day.

(** [datetime.fromisoformat('2000-01-01')] *)
Definition default_timestamp : Z := 946684800 * 1000000.

(** [datetime.fromisoformat(cache_data.get('timestamp', '2000-01-01'))] *)
Definition cache_time (ts : stamp) : res datetime :=
  match ts with
  | StampAbsent => Ok (Naive default_timestamp)
  | StampInvalid => Raise "Invalid isoformat string"
  | StampNaive t => Ok (Naive t)
  | StampAware t => Ok (Aware t)
  end.

(** [datetime.now() - cache_time] *)
Definition elapsed (now : Z) (d : datetime) : res Z :=
  match d with
  | Naive t => Ok (now - t)%Z
  | Aware _ => Raise "can't subtract offset-naive and offset-aware datetimes"
  end.

(** The [try] block of [load_cached_global_explanation]. *)
Definition read_cache (now : Z) (f : cache_file)
  : res (option explanation) :=
  match f with
  | NoFile => Raise "No such file or directory"
  | Unreadable => Raise "Expecting value"
  | CacheDoc ts expl =>
      t <-- cache_time ts ;;
      age <-- elapsed now t ;;
      if (age >? ttl)%Z then Ok None else Ok expl
  end.

Definition load_cached_global_explanation (now : Z) (f : cache_file)
  : option explanation :=
  match f with
  | NoFile => None
  | _ =>
      match read_cache now f with
      | Ok r => r
      | Raise _ => None
      end
  end.

(** [save_cached_global_explanation]: a failure to write is printed and
    dropped. *)
Definition save_cached_global_explanation (now : Z) (e : explanation)
    (fs : filesystem) : filesystem :=
  if writable fs then
    {| cache := CacheDoc (StampNaive now) (Some e); writable := true |}
  else fs.

(** ** Requests and responses *)

Record contribution := {
  c_feature : string;
  c_shap : R;
  c_value : R
}.

Record candidate := {
  feature : string;
  original_value : R;
  suggested_value : R;
  change : R;
  new_prediction : R;
  reduction_percent : R;
  distance : R
}.

Inductive payload :=
| ErrorBody (error : string)
| GlobalBody (e : explanation)
| LocalBody (prediction : R) (contributions : list contribution)
    (text_summary : string)
| LimeBody (prediction : R) (top_features : list (string * R))
    (explanation_score : R)
| CfBody (original_prediction target_prediction : R)
    (candidates : list candidate).

Record response := {
  body : payload;
  status : Z
}.

(** [jsonify(b)] and [jsonify({'error': msg}), code] *)
Definition jsonify (b : payload) : response := {| body := b; status := 200 |}.
Definition error_response (msg : string) (code : Z) : response :=
  {| body := ErrorBody msg; status := code |}.

(** The keys the endpoints read from a POST body that is a JSON object. *)
Record request := {
  input : option sample;    (* data['input'], when the key is there *)
  target : option R         (* data['target'], when the key is there *)
}.

Definition quote : string := String (ascii_of_nat 34) EmptyString.

Definition missing_input : string :=
  ("Missing " ++ quote ++ "input" ++ quote ++ " field in request")%string.

(** [{**cached, 'cached': True}] *)
Definition mark_cached (e : explanation) : explanation :=
  {| feature_importance := feature_importance e;
     explainer_type := explainer_type e;
     sample_size := sample_size e;
     cached := true |}.

(** ** GET /explain/global *)

Definition explain_global_try (E : Env) (now_load now_save : Z)
    (fs : filesystem) : M (response * filesystem) :=
  match model E, scaler E, feature_columns E with
  | Some _, Some _, Some cols =>
      match load_cached_global_explanation now_load (cache fs) with
      | Some cached_explanation =>
          ret (jsonify (GlobalBody (mark_cached cached_explanation)), fs)
      | None =>
          if negb (SHAP_AVAILABLE E) then
            ret (error_response "SHAP library not available" 500, fs)
          else
            explainer <- get_shap_explainer E ;;
            match explainer with
            | None =>
                ret (error_response "Failed to create SHAP explainer" 500, fs)
            | Some ex =>
                background <- generate_background_data E 100 ;;
                match background with
                | None =>
                    ret (error_response
                           "Failed to generate background data" 500, fs)
                | Some bg =>
                    values <- lift (shap_values ex bg) ;;
                    let mean_abs_shap := mean_axis0 (map (map Rabs) values) in
                    importance <-
                      lift (for_each
                              (fun i =>
                                 name <-- get cols i ;;
                                 v <-- get mean_abs_shap i ;;
                                 Ok (name, v))
                              (seq 0 (length cols))) ;;
                    let ranked := sort (key_desc snd) importance in
                    let e :=
                      {| feature_importance := ranked;
                         explainer_type := "LinearExplainer";
                         sample_size := Z.of_nat (length bg);
                         cached := false |} in
                    ret (jsonify (GlobalBody e),
                         save_cached_global_explanation now_save e fs)
                end
            end
      end
  | _, _, _ => ret (error_response "Model not loaded" 500, fs)
  end.

(** The endpoint: [now_load] and [now_save] are what [datetime.now()] reads
    when the cache is loaded and when it is saved. *)
Definition explain_global (E : Env) (now_load now_save : Z)
    (fs : filesystem) (g : rng) : response * filesystem * rng :=
  match explain_global_try E now_load now_save fs g with
  | (Ok (r, fs'), g') => (r, fs', g')
  | (Raise e, g') => (error_response e 500, fs, g')
  end.

(** ** POST /explain/local *)

Definition summary_part (E : Env) (c : contribution) : string :=
  let direction := if Rltb 0 (c_shap c) then "increases" else "decreases" in
  (c_feature c ++ " " ++ direction ++ " prediction by "
     ++ format_2f E (Rabs (c_shap c)) ++ " hours")%string.

Definition explain_local_try (E : Env) (data : request) : M response :=
  match model E, scaler E, feature_columns E with
  | Some m, Some s, Some cols =>
      match input data with
      | None => ret (error_response missing_input 400)
      | Some input_data =>
          processed_data <- lift (preprocess_input E input_data) ;;
          scaled_data <- lift (transform s [processed_data]) ;;
          predictions <- lift (predict m scaled_data) ;;
          prediction <- lift (get predictions 0) ;;
          if negb (SHAP_AVAILABLE E) then
            ret (error_response "SHAP library not available" 500)
          else
            explainer <- get_shap_explainer E ;;
            match explainer with
            | None =>
                ret (error_response "Failed to create SHAP explainer" 500)
            | Some ex =>
                x <- lift (get scaled_data 0) ;;
                values <- lift (shap_values_1d ex x) ;;
                listed <-
                  lift (for_each
                          (fun i =>
                             name <-- get cols i ;;
                             v <-- get values i ;;
                             xi <-- get x i ;;
                             Ok {| c_feature := name;
                                   c_shap := v;
                                   c_value := xi |})
                          (seq 0 (length cols))) ;;
                let ranked :=
                  sort (key_desc (fun c => Rabs (c_shap c))) listed in
                let top_features := firstn 3 ranked in
                let summary_parts := map (summary_part E) top_features in
                let text :=
                  ("Predicted " ++ format_2f E prediction
                     ++ " hours. Top factors: "
                     ++ String.concat ", " summary_parts ++ ".")%string in
                ret (jsonify (LocalBody prediction ranked text))
            end
      end
  | _, _, _ => ret (error_response "Model not loaded" 500)
  end.

Definition explain_local (E : Env) (data : request) (g : rng)
  : response * rng :=
  match explain_local_try E data g with
  | (Ok r, g') => (r, g')
  | (Raise e, g') => (error_response e 400, g')
  end.

(** ** POST /explain/lime *)

Definition str_nat (i : nat) : string :=
  NilEmpty.string_of_uint (Nat.to_uint i).

Definition str_id (f : lime_id) : string :=
  match f with
  | IdIndex i => str_nat i
  | IdName s => s
  end.

(** [col == feature_idx] *)
Definition is_name (col : string) (f : lime_id) : bool :=
  match f with
  | IdIndex _ => false
  | IdName s => String.eqb col s
  end.

(** The inner loop over [enumerate(feature_columns)], from position [i]. *)
Fixpoint find_feature (i : nat) (cols : list string) (f : lime_id)
  : option string :=
  match cols with
  | [] => None
  | col :: rest =>
      if String.eqb (str_nat i) (str_id f) || is_name col f then Some col
      else find_feature (S i) rest f
  end.

Definition feature_name (cols : list string) (f : lime_id) : string :=
  match find_feature 0 cols f with
  | Some name => name
  | None => str_id f
  end.

Definition explain_lime_try (E : Env) (data : request) : M response :=
  match model E, scaler E, feature_columns E with
  | Some m, Some s, Some cols =>
      if negb (LIME_AVAILABLE E) then
        ret (error_response "LIME library not available" 500)
      else
        match input data with
        | None => ret (error_response missing_input 400)
        | Some input_data =>
            processed_data <- lift (preprocess_input E input_data) ;;
            scaled_data <- lift (transform s [processed_data]) ;;
            predictions <- lift (predict m scaled_data) ;;
            prediction <- lift (get predictions 0) ;;
            background <- generate_background_data E 100 ;;
            match background with
            | None =>
                ret (error_response "Failed to generate background data" 500)
            | Some bg =>
                explainer <- lift (LimeTabularExplainer E bg cols) ;;
                x <- lift (get scaled_data 0) ;;
                explained <- explain_instance explainer x m 10 ;;
                let top_features :=
                  map (fun '(feature_idx, weight) =>
                         (feature_name cols feature_idx, weight))
                      (as_list explained) in
                ret (jsonify (LimeBody prediction top_features
                                (score explained)))
            end
        end
  | _, _, _ => ret (error_response "Model not loaded" 500)
  end.

Definition explain_lime (E : Env) (data : request) (g : rng)
  : response * rng :=
  match explain_lime_try E data g with
  | (Ok r, g') => (r, g')
  | (Raise e, g') => (error_response e 400, g')
  end.

(** ** POST /explain/cf *)

Definition actionable_features : list string :=
  [ "Age"; "Service time"; "Work load Average/day ";
    "Transportation expense"; "Distance from Residence to Work" ].

(** The dict [feature_mapping], in insertion order. *)
Definition feature_mapping (cols : list string) : list (string * nat) :=
  map (fun feat => (feat, index feat cols))
      (filter (fun feat => mem feat cols) actionable_features).

Definition delta_mults : list R := [-0.5; -1.0; -2.0; 0.5; 1.0; 2.0].

(** A [for] loop that threads the list built so far and may raise. *)
Fixpoint fold_res {A B} (f : B -> A -> res B) (l : list A) (b : B) : res B :=
  match l with
  | [] => Ok b
  | a :: l' => b' <-- f b a ;; fold_res f l' b'
  end.

(** The body of the inner loop, for one multiplier. *)
Definition try_delta (m : Model) (x : row) (original_pred : R)
    (feat_name : string) (feat_idx : nat) (feat_std current_value : R)
    (candidates : list candidate) (delta_mult : R) : res (list candidate) :=
  let delta := delta_mult * feat_std in
  let new_value := current_value + delta in
  modified_scaled <-- set_item x feat_idx new_value ;;
  predictions <-- predict m [modified_scaled] ;;
  new_pred <-- get predictions 0 ;;
  if Rltb new_pred original_pred then
    let reduction := (original_pred - new_pred) / original_pred in
    let change_vector := vsub modified_scaled x in
    let dist := norm change_vector in
    Ok (candidates ++
          [ {| feature := feat_name;
               original_value := current_value;
               suggested_value := new_value;
               change := delta;
               new_prediction := new_pred;
               reduction_percent := reduction * 100;
               distance := dist |} ])%list
  else Ok candidates.

(** The body of the outer loop, for one actionable feature. *)
Definition try_feature (m : Model) (background scaled_data : matrix)
    (original_pred : R) (candidates : list candidate)
    (entry : string * nat) : res (list candidate) :=
  let (feat_name, feat_idx) := entry in
  x <-- get scaled_data 0 ;;
  if Nat.leb (length x) feat_idx then Ok candidates
  else
    feat_values <-- column background feat_idx ;;
    let feat_std := std feat_values in
    current_value <-- get x feat_idx ;;
    fold_res
      (try_delta m x original_pred feat_name feat_idx feat_std current_value)
      delta_mults candidates.

(** The sort key [(-x['reduction_percent'], x['distance'])]. *)
Definition cf_key (c : candidate) : R * R :=
  (- reduction_percent c, distance c).

Definition cf_precedes (y x : candidate) : bool :=
  pair_lt (cf_key y) (cf_key x).

Definition explain_counterfactual_try (E : Env) (data : request)
  : M response :=
  match model E, scaler E, feature_columns E with
  | Some m, Some s, Some cols =>
      match input data with
      | None => ret (error_response missing_input 400)
      | Some input_data =>
          let target_factor :=
            match target data with
            | Some t => t
            | None => 0.8
            end in
          processed_data <- lift (preprocess_input E input_data) ;;
          scaled_data <- lift (transform s [processed_data]) ;;
          predictions <- lift (predict m scaled_data) ;;
          original_pred <- lift (get predictions 0) ;;
          let target_pred := original_pred * target_factor in
          background <- generate_background_data E 100 ;;
          match background with
          | None =>
              ret (error_response "Failed to generate background data" 500)
          | Some bg =>
              found <-
                lift (fold_res (try_feature m bg scaled_data original_pred)
                        (feature_mapping cols) []) ;;
              let ranked := sort cf_precedes found in
              let top_candidates := firstn 5 ranked in
              ret (jsonify (CfBody original_pred target_pred top_candidates))
          end
      end
  | _, _, _ => ret (error_response "Model not loaded" 500)
  end.

Definition explain_counterfactual (E : Env) (data : request) (g : rng)
  : response * rng :=
  match explain_counterfactual_try E data g with
  | (Ok r, g') => (r, g')
  | (Raise e, g') => (error_response e 400, g')
  end.

(** ** The body of a POST request

    [request.json] is whatever JSON value the client sent, which need not
    be an object, or it raises (no JSON content type, malformed JSON).
    The test ['input' not in data] and the subscript [data['input']] are
    Python's on each type of value; the messages are CPython's. *)

(** An element of a JSON array, as far as [==] with a string can tell. *)
Inductive json_item :=
| ItemString (s : string)
| ItemOther.

Inductive post_body :=
| BodyNull
| BodyBool (b : bool)
| BodyInt (n : Z)
| BodyFloat (x : R)
| BodyString (s : string)
| BodyArray (items : list json_item)
| BodyObject (fields : request).

(** [sub in s] on strings: [sub] occurs in [s]. *)
Fixpoint contains (sub s : string) : bool :=
  String.prefix sub s ||
  match s with
  | EmptyString => false
  | String _ s' => contains sub s'
  end.

(** [item == key] *)
Definition is_string (key : string) (item : json_item) : bool :=
  match item with
  | ItemString s => String.eqb s key
  | ItemOther => false
  end.

Definition not_iterable (type_name : string) : string :=
  ("argument of type '" ++ type_name ++ "' is not iterable")%string.

Definition not_subscriptable (type_name : string) : string :=
  ("'" ++ type_name ++ "' object is not subscriptable")%string.

(** ['input' not in data] *)
Definition lacks_input (data : post_body) : res bool :=
  match data with
  | BodyNull => Raise (not_iterable "NoneType")
  | BodyBool _ => Raise (not_iterable "bool")
  | BodyInt _ => Raise (not_iterable "int")
  | BodyFloat _ => Raise (not_iterable "float")
  | BodyString s => Ok (negb (contains "input" s))
  | BodyArray items => Ok (negb (existsb (is_string "input") items))
  | BodyObject fields =>
      Ok (match input fields with
          | Some _ => false
          | None => true
          end)
  end.

(** [data['input']], and for an object the other key read later. *)
Definition subscript_input (data : post_body) : res request :=
  match data with
  | BodyNull => Raise (not_subscriptable "NoneType")
  | BodyBool _ => Raise (not_subscriptable "bool")
  | BodyInt _ => Raise (not_subscriptable "int")
  | BodyFloat _ => Raise (not_subscriptable "float")
  | BodyString _ => Raise "string indices must be integers, not 'str'"
  | BodyArray _ => Raise "list indices must be integers or slices, not str"
  | BodyObject fields => Ok fields
  end.

(** [data = request.json], the test and the subscript.  [Ok None] stands
    for the early return of the test. *)
Definition read_body (request_json : res post_body) : res (option request) :=
  data <-- request_json ;;
  missing <-- lacks_input data ;;
  if missing then Ok None
  else fields <-- subscript_input data ;; Ok (Some fields).

(** An endpoint from [data = request.json] on, inside its [try]. *)
Definition answer_body (endpoint : request -> rng -> response * rng)
    (request_json : res post_body) (g : rng) : response * rng :=
  match read_body request_json with
  | Ok (Some fields) => endpoint fields g
  | Ok None => (error_response missing_input 400, g)
  | Raise e => (error_response e 400, g)
  end.

(** The three POST endpoints on any body: the guards come before the body
    is looked at. *)
Definition post_explain_local (E : Env) (request_json : res post_body)
    (g : rng) : response * rng :=
  match model E, scaler E, feature_columns E with
  | Some _, Some _, Some _ => answer_body (explain_local E) request_json g
  | _, _, _ => (error_response "Model not loaded" 500, g)
  end.

Definition post_explain_lime (E : Env) (request_json : res post_body)
    (g : rng) : response * rng :=
  match model E, scaler E, feature_columns E with
  | Some _, Some _, Some _ =>
      if negb (LIME_AVAILABLE E) then
        (error_response "LIME library not available" 500, g)
      else answer_body (explain_lime E) request_json g
  | _, _, _ => (error_response "Model not loaded" 500, g)
  end.

Definition post_explain_counterfactual (E : Env)
    (request_json : res post_body) (g : rng) : response * rng :=
  match model E, scaler E, feature_columns E with
  | Some _, Some _, Some _ =>
      answer_body (explain_counterfactual E) request_json g
  | _, _, _ => (error_response "Model not loaded" 500, g)
  end.

(** ** The counterfactual search in binary64

    The distance of a candidate is made of [current_value + delta] and of
    the difference with the original vector, and both round.  This part
    reads the search (from the original prediction to the five candidates
    returned) over numpy's float64, the binary64 numbers of [PrimFloat],
    given the scaled input and the background.  The model and [np.std] are
    arguments. *)













(** ** A small concrete deployment

    A schema with the single feature Age, a preprocessor that returns the
    first raw value as its row, the identity as scaler, a linear model that
    returns the first coordinate of each row,
    and a generator that alternates between the two ends of the requested
    range. *)

Definition demo_model : Model :=
  {| predict := fun X => Ok (map (hd 0) X); has_coef := true |}.

Definition demo_scaler : Scaler := {| transform := fun X => Ok X |}.

Definition demo_explainer : Explainer :=
  {| shap_values := fun X => Ok X; shap_values_1d := fun x => Ok x |}.

Definition demo_lime : LimeExplainer :=
  {| explain_instance :=
       fun _ _ _ => ret {| as_list := [(IdName "Age", 1)]; score := 1 |} |}.

Definition demo : Env :=
  {| model := Some demo_model;
     scaler := Some demo_scaler;
     feature_columns := Some ["Age"];
     preprocess_input := fun s => Ok [hd 0 (map snd s)];
     SHAP_AVAILABLE := true;
     LIME_AVAILABLE := true;
     LinearExplainer := fun _ _ => Ok demo_explainer;
     LimeTabularExplainer := fun _ _ => Ok demo_lime;
     uniform := fun lo hi g => (if Nat.even g then lo else hi, S g);
     choice := fun values g => (hd 0 values, S g);
     format_2f := fun _ => "0.00" |}.

(** ** Vocabulary of the properties *)

(** Consecutive entries of a sorted list: the later one must not be required
    strictly before the earlier one. *)
Definition in_order {A} (precedes : A -> A -> bool) (a b : A) : Prop :=
  precedes b a = false.

(** A matrix whose rows all have the given length. *)
Definition aligned (width : nat) (m : list (list R)) : Prop :=
  Forall (fun r => length r = width) m.

(** The factor a request asks for. *)
Definition requested_factor (data : request) : R :=
  match target data with
  | Some t => t
  | None => 0.8
  end.

(** A candidate the search accepted for the scaled input [x] and the
    original prediction [o]: one coordinate of [x] moved by [change], the
    model asked again, and the answer strictly lower. *)
Definition accepted (m : Model) (x : row) (o : R) (c : candidate) : Prop :=
  exists idx modified predictions,
    nth_error x idx = Some (original_value c) /\
    suggested_value c = original_value c + change c /\
    set_item x idx (suggested_value c) = Ok modified /\
    predict m [modified] = Ok predictions /\
    get predictions 0 = Ok (new_prediction c) /\
    new_prediction c < o /\
    reduction_percent c = (o - new_prediction c) / o * 100 /\
    distance c = norm (vsub modified x).

(** The time an entry counts as saved at: an entry without a timestamp is
    read as saved on 2000-01-01. *)
Definition stamp_time (ts : stamp) : option Z :=
  match ts with
  | StampAbsent => Some default_timestamp
  | StampNaive t => Some t
  | StampInvalid | StampAware _ => None
  end.

Definition importance_ranked (l : list (string * R)) : Prop :=
  Sorted (fun a b => snd b <= snd a) l.

(** The cache files the service can find: none, a torn one, or the one left
    by an earlier call of the global endpoint. *)
Inductive left_by_service : cache_file -> Prop :=
| cache_absent : left_by_service NoFile
| cache_torn : left_by_service Unreadable
| cache_after_call E now_load now_save fs g :
    left_by_service (cache fs) ->
    left_by_service
      (cache (snd (fst (explain_global E now_load now_save fs g)))).

Definition cache_ranked (f : cache_file) : Prop :=
  match f with
  | CacheDoc _ (Some e) => importance_ranked (feature_importance e)
  | _ => True
  end.

(** A feature the sampler has a range or a set of values for. *)
Definition known (feat : string) : Prop :=
  In feat (map fst numeric_features) \/ In feat (map fst categorical_defaults).

(** Variants of a deployment with one collaborator missing. *)

Definition without_model (E : Env) : Env :=
  {| model := None;
     scaler := scaler E;
     feature_columns := feature_columns E;
     preprocess_input := preprocess_input E;
     SHAP_AVAILABLE := SHAP_AVAILABLE E;
     LIME_AVAILABLE := LIME_AVAILABLE E;
     LinearExplainer := LinearExplainer E;
     LimeTabularExplainer := LimeTabularExplainer E;
     uniform := uniform E;
     choice := choice E;
     format_2f := format_2f E |}.

Definition without_scaler (E : Env) : Env :=
  {| model := model E;
     scaler := None;
     feature_columns := feature_columns E;
     preprocess_input := preprocess_input E;
     SHAP_AVAILABLE := SHAP_AVAILABLE E;
     LIME_AVAILABLE := LIME_AVAILABLE E;
     LinearExplainer := LinearExplainer E;
     LimeTabularExplainer := LimeTabularExplainer E;
     uniform := uniform E;
     choice := choice E;
     format_2f := format_2f E |}.

Definition without_schema (E : Env) : Env :=
  {| model := model E;
     scaler := scaler E;
     feature_columns := None;
     preprocess_input := preprocess_input E;
     SHAP_AVAILABLE := SHAP_AVAILABLE E;
     LIME_AVAILABLE := LIME_AVAILABLE E;
     LinearExplainer := LinearExplainer E;
     LimeTabularExplainer := LimeTabularExplainer E;
     uniform := uniform E;
     choice := choice E;
     format_2f := format_2f E |}.

Definition without_lime (E : Env) : Env :=
  {| model := model E;
     scaler := scaler E;
     feature_columns := feature_columns E;
     preprocess_input := preprocess_input E;
     SHAP_AVAILABLE := SHAP_AVAILABLE E;
     LIME_AVAILABLE := false;
     LinearExplainer := LinearExplainer E;
     LimeTabularExplainer := LimeTabularExplainer E;
     uniform := uniform E;
     choice := choice E;
     format_2f := format_2f E |}.

(** No shap library, and a model without coefficients. *)
Definition without_shap (E : Env) : Env :=
  {| model :=
       option_map (fun m => {| predict := predict m; has_coef := false |})
                  (model E);
     scaler := scaler E;
     feature_columns := feature_columns E;
     preprocess_input := preprocess_input E;
     SHAP_AVAILABLE := false;
     LIME_AVAILABLE := LIME_AVAILABLE E;
     LinearExplainer := LinearExplainer E;
     LimeTabularExplainer := LimeTabularExplainer E;
     uniform := uniform E;
     choice := choice E;
     format_2f := format_2f E |}.

(** A schema with no feature the sampler knows. *)
Definition with_unknown_schema (E : Env) : Env :=
  {| model := model E;
     scaler := scaler E;
     feature_columns := Some ["Body mass index"];
     preprocess_input := preprocess_input E;
     SHAP_AVAILABLE := SHAP_AVAILABLE E;
     LIME_AVAILABLE := LIME_AVAILABLE E;
     LinearExplainer := LinearExplainer E;
     LimeTabularExplainer := LimeTabularExplainer E;
     uniform := uniform E;
     choice := choice E;
     format_2f := format_2f E |}.

(** Requests, backgrounds and cache files of the concrete deployment. *)

Definition demo_request : request :=
  {| input := Some [("Age", 40)]; target := None |}.

Definition empty_request : request := {| input := None; target := None |}.

(** The background the generator gives: Age alternates between 25 and 60. *)
Definition demo_column : list R := concat (repeat [25; 60] 50).
Definition demo_background : list (list R) := map (fun v => [v]) demo_column.

(** The candidate for one multiplier: the standard deviation of the
    background column is 17.5. *)
Definition demo_candidate (mult : R) : candidate :=
  {| feature := "Age";
     original_value := 40;
     suggested_value := 40 + mult * 17.5;
     change := mult * 17.5;
     new_prediction := 40 + mult * 17.5;
     reduction_percent := (40 - (40 + mult * 17.5)) / 40 * 100;
     distance := norm [40 + mult * 17.5 - 40] |}.

Definition demo_candidates : list candidate :=
  [demo_candidate (-2.0); demo_candidate (-1.0); demo_candidate (-0.5)].

Definition demo_importance : list (string * R) :=
  [("Age", mean (map (fun r => nth 0 r 0) (map (map Rabs) demo_background)))].

Definition demo_explanation : explanation :=
  {| feature_importance := demo_importance;
     explainer_type := "LinearExplainer";
     sample_size := 100;
     cached := false |}.

Definition no_cache : filesystem := {| cache := NoFile; writable := true |}.

(** An entry saved at time 0 by an earlier deployment. *)
Definition old_explanation : explanation :=
  {| feature_importance := [("Age", 1)];
     explainer_type := "LinearExplainer";
     sample_size := 100;
     cached := false |}.

Definition old_cache : filesystem :=
  {| cache := CacheDoc (StampNaive 0) (Some old_explanation);
     writable := true |}.

Definition days (d : Z) : Z := (d * microseconds_per_day)%Z.

(** ** Further vocabulary and deployments *)

(** Whether a response body is the error object. *)
Definition is_error (b : payload) : bool :=
  match b with
  | ErrorBody _ => true
  | _ => false
  end.

(** A candidate proposed for the schema [cols], the background [bg] and the
    scaled input [x]: its feature is an actionable feature of the schema,
    its original value is the coordinate of [x] at the first position of
    that feature, and its change is one of the six multiples of the
    standard deviation of that column of the background. *)
Definition proposed (cols : list string) (bg : matrix) (x : row)
    (c : candidate) : Prop :=
  exists idx col mult,
    In (feature c) actionable_features /\
    idx = index (feature c) cols /\
    nth_error cols idx = Some (feature c) /\
    nth_error x idx = Some (original_value c) /\
    column bg idx = Ok col /\
    In mult delta_mults /\
    change c = mult * std col.

(** The counterfactual order on candidates, as a relation: a larger
    reduction first, and for equal reductions the smaller distance first. *)
Definition ranks_before (a b : candidate) : Prop :=
  reduction_percent b < reduction_percent a \/
  (reduction_percent b = reduction_percent a /\ distance a <= distance b).

(** A deployment whose model has no coefficients. *)
Definition with_opaque_model (E : Env) : Env :=
  {| model :=
       option_map (fun m => {| predict := predict m; has_coef := false |})
                  (model E);
     scaler := scaler E;
     feature_columns := feature_columns E;
     preprocess_input := preprocess_input E;
     SHAP_AVAILABLE := SHAP_AVAILABLE E;
     LIME_AVAILABLE := LIME_AVAILABLE E;
     LinearExplainer := LinearExplainer E;
     LimeTabularExplainer := LimeTabularExplainer E;
     uniform := uniform E;
     choice := choice E;
     format_2f := format_2f E |}.

(** A deployment whose model predicts the same value for every row. *)
Definition with_constant_model (E : Env) (v : R) : Env :=
  {| model := Some {| predict := fun X => Ok (map (fun _ => v) X);
                      has_coef := true |};
     scaler := scaler E;
     feature_columns := feature_columns E;
     preprocess_input := preprocess_input E;
     SHAP_AVAILABLE := SHAP_AVAILABLE E;
     LIME_AVAILABLE := LIME_AVAILABLE E;
     LinearExplainer := LinearExplainer E;
     LimeTabularExplainer := LimeTabularExplainer E;
     uniform := uniform E;
     choice := choice E;
     format_2f := format_2f E |}.

(** A deployment whose preprocessor rejects every input. *)
Definition with_failing_preprocessor (E : Env) (msg : string) : Env :=
  {| model := model E;
     scaler := scaler E;
     feature_columns := feature_columns E;
     preprocess_input := fun _ => Raise msg;
     SHAP_AVAILABLE := SHAP_AVAILABLE E;
     LIME_AVAILABLE := LIME_AVAILABLE E;
     LinearExplainer := LinearExplainer E;
     LimeTabularExplainer := LimeTabularExplainer E;
     uniform := uniform E;
     choice := choice E;
     format_2f := format_2f E |}.

(** A deployment whose schema is loaded but has no feature. *)
Definition with_empty_schema (E : Env) : Env :=
  {| model := model E;
     scaler := scaler E;
     feature_columns := Some [];
     preprocess_input := preprocess_input E;
     SHAP_AVAILABLE := SHAP_AVAILABLE E;
     LIME_AVAILABLE := LIME_AVAILABLE E;
     LinearExplainer := LinearExplainer E;
     LimeTabularExplainer := LimeTabularExplainer E;
     uniform := uniform E;
     choice := choice E;
     format_2f := format_2f E |}.

(** A deployment with two features, whose explainer attributes to each
    feature its scaled value times a coefficient: 0.1 for Age, 5 for Son. *)
Definition weighted_explainer : Explainer :=
  {| shap_values :=
       fun X => Ok (map (fun x => map (fun '(w, v) => w * v)
                                      (combine [0.1; 5] x)) X);
     shap_values_1d :=
       fun x => Ok (map (fun '(w, v) => w * v) (combine [0.1; 5] x)) |}.

Definition demo_pair : Env :=
  {| model := Some demo_model;
     scaler := Some demo_scaler;
     feature_columns := Some ["Age"; "Son"];
     preprocess_input := fun s => Ok (map snd s);
     SHAP_AVAILABLE := true;
     LIME_AVAILABLE := true;
     LinearExplainer := fun _ _ => Ok weighted_explainer;
     LimeTabularExplainer := fun _ _ => Ok demo_lime;
     uniform := uniform demo;
     choice := choice demo;
     format_2f := format_2f demo |}.

Definition pair_request : request :=
  {| input := Some [("Age", 40); ("Son", 2)]; target := None |}.

(** What the local endpoint answers for it: Son first, with the larger
    attribution. *)
Definition pair_contributions : list contribution :=
  [ {| c_feature := "Son"; c_shap := 5 * 2; c_value := 2 |};
    {| c_feature := "Age"; c_shap := 0.1 * 40; c_value := 40 |} ].

(** ** Vocabulary and examples of the binary64 search *)








(** * Properties *)

(** ** The stable sort *)

Section Sorting.
Context {A : Type}.
Variable precedes : A -> A -> bool.

Hypothesis precedes_asym :
  forall a b, precedes a b = true -> precedes b a = false.

Lemma insert_perm (x : A) (l : list A) :
  Permutation (x :: l) (insert precedes x l).
Proof.
  induction l as [|y l IH]; simpl; [reflexivity|].
  destruct (precedes y x); [|reflexivity].
  rewrite perm_swap. now apply perm_skip.
Qed.

Lemma sort_perm (l : list A) : Permutation l (sort precedes l).
Proof.
  induction l as [|x l IH]; simpl; [constructor|].
  rewrite <- insert_perm. now apply perm_skip.
Qed.

Lemma insert_hd (a x : A) (l : list A) :
  in_order precedes a x ->
  HdRel (in_order precedes) a l ->
  HdRel (in_order precedes) a (insert precedes x l).
Proof.
  intros Hax Hal. destruct l as [|y l]; simpl.
  - now constructor.
  - destruct (precedes y x); constructor; [|assumption].
    now apply HdRel_inv in Hal.
Qed.

Lemma insert_sorted (x : A) (l : list A) :
  Sorted (in_order precedes) l ->
  Sorted (in_order precedes) (insert precedes x l).
Proof.
  induction l as [|y l IH]; simpl; intros Hs.
  - repeat constructor.
  - apply Sorted_inv in Hs as [Hs Hy].
    destruct (precedes y x) eqn:Hyx.
    + constructor; [now apply IH|].
      apply insert_hd; [|assumption].
      now apply precedes_asym.
    + constructor; [now constructor|].
      now constructor.
Qed.

Lemma sort_sorted (l : list A) : Sorted (in_order precedes) (sort precedes l).
Proof.
  induction l as [|x l IH]; simpl; [constructor|].
  now apply insert_sorted.
Qed.
End Sorting.

Lemma Sorted_firstn {A} (R : A -> A -> Prop) (n : nat) (l : list A) :
  Sorted R l -> Sorted R (firstn n l).
Proof.
  revert l. induction n as [|n IH]; intros [|x l] Hs; simpl;
    try constructor.
  - apply IH. now apply Sorted_inv in Hs.
  - apply Sorted_inv in Hs as [_ Hx].
    destruct n; simpl; [constructor|].
    destruct l; constructor. now apply HdRel_inv in Hx.
Qed.

Lemma Forall_firstn {A} (P : A -> Prop) (n : nat) (l : list A) :
  Forall P l -> Forall P (firstn n l).
Proof.
  revert l. induction n as [|n IH]; intros l H; simpl; [constructor|].
  destruct H; constructor; auto.
Qed.

Lemma Forall_firstn_sort {A} (P : A -> Prop) precedes (n : nat) (l : list A) :
  Forall P l -> Forall P (firstn n (sort precedes l)).
Proof.
  intros H. apply Forall_firstn.
  now rewrite <- (sort_perm precedes l).
Qed.

Lemma Rltb_true (x y : R) : Rltb x y = true <-> x < y.
Proof. unfold Rltb. destruct (Rlt_dec x y); split; intros; congruence || easy. Qed.

Lemma Rltb_false (x y : R) : Rltb x y = false <-> y <= x.
Proof.
  unfold Rltb. destruct (Rlt_dec x y); split; intros; try lra; congruence.
Qed.

Lemma Reqb_true (x y : R) : Reqb x y = true <-> x = y.
Proof. unfold Reqb. destruct (Req_dec_T x y); split; intros; congruence || easy. Qed.

Lemma key_desc_asym {A} (k : A -> R) (a b : A) :
  key_desc k a b = true -> key_desc k b a = false.
Proof.
  unfold key_desc. rewrite Rltb_true, Rltb_false. lra.
Qed.

Lemma cf_precedes_asym (a b : candidate) :
  cf_precedes a b = true -> cf_precedes b a = false.
Proof.
  unfold cf_precedes, pair_lt, cf_key; simpl.
  destruct (Reqb (- reduction_percent a) (- reduction_percent b)) eqn:E1;
    destruct (Reqb (- reduction_percent b) (- reduction_percent a)) eqn:E2;
    rewrite ?Rltb_true, ?Rltb_false; try lra.
  - apply Reqb_true in E1.
    assert (Reqb (- reduction_percent b) (- reduction_percent a) = true)
      by (apply Reqb_true; lra).
    congruence.
  - apply Reqb_true in E2.
    assert (Reqb (- reduction_percent a) (- reduction_percent b) = true)
      by (apply Reqb_true; lra).
    congruence.
Qed.

(** What being in order means for the three rankings. *)

Lemma key_desc_in_order {A} (k : A -> R) (a b : A) :
  in_order (key_desc k) a b <-> k b <= k a.
Proof. unfold in_order, key_desc. now rewrite Rltb_false. Qed.

Lemma cf_in_order (a b : candidate) :
  in_order cf_precedes a b <->
  reduction_percent b < reduction_percent a \/
  (reduction_percent b = reduction_percent a /\ distance a <= distance b).
Proof.
  unfold in_order, cf_precedes, pair_lt, cf_key; simpl.
  destruct (Reqb (- reduction_percent b) (- reduction_percent a)) eqn:E.
  - apply Reqb_true in E. rewrite Rltb_false. split; intros; lra.
  - assert (- reduction_percent b <> - reduction_percent a) as Hne.
    { intros H. apply Reqb_true in H. congruence. }
    rewrite Rltb_false. split; intros; lra.
Qed.

(** ** The counterfactual search *)

(** What a successful answer of the counterfactual endpoint went through. *)
Lemma cf_inversion E data g o t cs :
  body (fst (explain_counterfactual E data g)) = CfBody o t cs ->
  exists m s cols input_data processed scaled predictions bg g' found,
    model E = Some m /\ scaler E = Some s /\ feature_columns E = Some cols /\
    input data = Some input_data /\
    preprocess_input E input_data = Ok processed /\
    transform s [processed] = Ok scaled /\
    predict m scaled = Ok predictions /\
    get predictions 0 = Ok o /\
    generate_background_data E 100 g = (Ok (Some bg), g') /\
    fold_res (try_feature m bg scaled o) (feature_mapping cols) [] = Ok found /\
    t = o * requested_factor data /\
    cs = firstn 5 (sort cf_precedes found) /\
    explain_counterfactual E data g = (jsonify (CfBody o t cs), g').
Proof.
  unfold explain_counterfactual, explain_counterfactual_try, requested_factor.
  unfold bind, ret, lift.
  destruct (model E) as [m|]; [|discriminate].
  destruct (scaler E) as [s|]; [|discriminate].
  destruct (feature_columns E) as [cols|]; [|discriminate].
  destruct (input data) as [input_data|]; [|discriminate].
  destruct (preprocess_input E input_data) as [processed|] eqn:Hpre;
    [|discriminate].
  destruct (transform s [processed]) as [scaled|] eqn:Hscale; [|discriminate].
  destruct (predict m scaled) as [predictions|] eqn:Hpred; [|discriminate].
  destruct (get predictions 0) as [o'|] eqn:Ho; [|discriminate].
  destruct (generate_background_data E 100 g) as [[[bg|]|] g1] eqn:Hbg;
    [|discriminate|discriminate].
  destruct (fold_res _ _ _) as [found|] eqn:Hfound; [|discriminate].
  simpl. intros H. inversion H; subst.
  exists m, s, cols, input_data, processed, scaled, predictions, bg, g1, found.
  repeat split; auto.
Qed.

Lemma fold_res_invariant {A B} (P : B -> Prop) (f : B -> A -> res B)
    (l : list A) :
  (forall b a b', P b -> f b a = Ok b' -> P b') ->
  forall b r, P b -> fold_res f l b = Ok r -> P r.
Proof.
  intros Hstep. induction l as [|a l IH]; simpl; intros b r Hb Hr.
  - now inversion Hr; subst.
  - unfold and_then in Hr. destruct (f b a) as [b'|] eqn:Hf; [|discriminate].
    eapply IH; [|exact Hr]. eapply Hstep; eauto.
Qed.

Lemma get_nth_error {A} (l : list A) (i : nat) (a : A) :
  get l i = Ok a <-> nth_error l i = Some a.
Proof.
  unfold get. destruct (nth_error l i); split; intros H;
    inversion H; subst; reflexivity.
Qed.

Lemma try_delta_accepted m x o name idx sd cur cands mult cands' :
  nth_error x idx = Some cur ->
  Forall (accepted m x o) cands ->
  try_delta m x o name idx sd cur cands mult = Ok cands' ->
  Forall (accepted m x o) cands'.
Proof.
  intros Hcur Hall. unfold try_delta, and_then.
  destruct (set_item x idx (cur + mult * sd)) as [modified|] eqn:Hset;
    [|discriminate].
  destruct (predict m [modified]) as [predictions|] eqn:Hp; [|discriminate].
  destruct (get predictions 0) as [new_pred|] eqn:Hn; [|discriminate].
  destruct (Rltb new_pred o) eqn:Hlt; intros H; inversion H; subst; auto.
  apply Forall_app; split; [assumption|].
  constructor; [|constructor].
  exists idx, modified, predictions; simpl.
  apply Rltb_true in Hlt. repeat split; auto.
Qed.

Lemma try_feature_accepted m bg scaled o x cands entry cands' :
  get scaled 0 = Ok x ->
  Forall (accepted m x o) cands ->
  try_feature m bg scaled o cands entry = Ok cands' ->
  Forall (accepted m x o) cands'.
Proof.
  intros Hx Hall. unfold try_feature. destruct entry as [name idx].
  rewrite Hx; cbn [and_then].
  destruct (Nat.leb (length x) idx); [intros H; now inversion H; subst|].
  destruct (column bg idx) as [vals|]; cbn [and_then]; [|discriminate].
  destruct (get x idx) as [cur|] eqn:Hcur; cbn [and_then]; [|discriminate].
  apply get_nth_error in Hcur.
  apply fold_res_invariant; [|assumption].
  intros b a b' Hb. now apply try_delta_accepted.
Qed.

(** Every candidate found by the search was accepted, for the first row of
    the scaled input. *)
Lemma search_accepted m bg scaled o mapping found :
  fold_res (try_feature m bg scaled o) mapping [] = Ok found ->
  Forall (fun c => exists x, get scaled 0 = Ok x /\ accepted m x o c) found.
Proof.
  destruct (get scaled 0) as [x|e] eqn:Hx.
  - intros H.
    assert (Forall (accepted m x o) found) as Hall.
    { revert H. apply fold_res_invariant; [|constructor].
      intros b a b' Hb. now apply try_feature_accepted. }
    eapply Forall_impl; [|exact Hall]. intros c Hc. now exists x.
  - destruct mapping as [|[name idx] mapping]; simpl.
    + intros H; inversion H; subst. constructor.
    + unfold try_feature. rewrite Hx. simpl. discriminate.
Qed.

(** The change vector of a single moved coordinate. *)
Lemma sum_squares_single_change (x : row) :
  forall idx cur d modified,
    nth_error x idx = Some cur ->
    set_item x idx (cur + d) = Ok modified ->
    sum (map (fun v => v * v) (vsub modified x)) = d * d.
Proof.
  assert (forall l : row, sum (map (fun v => v * v) (vsub l l)) = 0) as Hzero.
  { induction l as [|y l IH]; simpl; [reflexivity|]. rewrite IH. lra. }
  induction x as [|y x IH]; intros [|idx] cur d modified Hn Hs; simpl in *;
    try discriminate.
  - inversion Hn; subst. inversion Hs; subst. simpl.
    rewrite Hzero. lra.
  - unfold and_then in Hs.
    destruct (set_item x idx (cur + d)) as [v|] eqn:Hv; [|discriminate].
    inversion Hs; subst. simpl. rewrite (IH _ _ _ _ Hn Hv). lra.
Qed.

Lemma norm_single_change (x : row) idx cur d modified :
  nth_error x idx = Some cur ->
  set_item x idx (cur + d) = Ok modified ->
  norm (vsub modified x) = Rabs d.
Proof.
  intros Hn Hs. unfold norm.
  rewrite (sum_squares_single_change x idx cur d modified Hn Hs).
  apply sqrt_Rsqr_abs.
Qed.

Lemma accepted_distance m x o c :
  accepted m x o c -> distance c = Rabs (change c).
Proof.
  intros (idx & modified & predictions & Hn & Hsug & Hset & _ & _ & _ & _ & Hd).
  rewrite Hd. rewrite Hsug in Hset.
  exact (norm_single_change x idx _ _ modified Hn Hset).
Qed.

Lemma counterfactual_candidates_accepted E data g o t cs :
  body (fst (explain_counterfactual E data g)) = CfBody o t cs ->
  exists m s input_data processed scaled,
    model E = Some m /\ scaler E = Some s /\
    input data = Some input_data /\
    preprocess_input E input_data = Ok processed /\
    transform s [processed] = Ok scaled /\
    Forall (fun c => exists x, get scaled 0 = Ok x /\ accepted m x o c) cs.
Proof.
  intros H. apply cf_inversion in H.
  destruct H as (m & s & cols & input_data & processed & scaled & predictions
                 & bg & g' & found & Hm & Hs & _ & Hi & Hp & Ht & _ & _ & _
                 & Hfound & _ & Hcs & _).
  exists m, s, input_data, processed, scaled. repeat split; auto.
  subst cs. apply Forall_firstn_sort.
  exact (search_accepted _ _ _ _ _ _ Hfound).
Qed.

Lemma counterfactual_candidates_ranked E data g o t cs :
  body (fst (explain_counterfactual E data g)) = CfBody o t cs ->
  Sorted (in_order cf_precedes) cs /\ (length cs <= 5)%nat.
Proof.
  intros H. apply cf_inversion in H.
  destruct H as (m & s & cols & input_data & processed & scaled & predictions
                 & bg & g' & found & _ & _ & _ & _ & _ & _ & _ & _ & _
                 & _ & _ & Hcs & _).
  subst cs. split.
  - apply Sorted_firstn, sort_sorted. exact cf_precedes_asym.
  - apply firstn_le_length.
Qed.

(** C1.  Whenever POST /explain/cf answers with a list of candidates, every
    candidate of the list has a new prediction strictly below the original
    prediction, its reduction_percent is
    (original - new) / original * 100, and the list has at most five
    entries. *)
Theorem counterfactual_soundness E data g o t cs :
  body (fst (explain_counterfactual E data g)) = CfBody o t cs ->
  Forall (fun c =>
            new_prediction c < o /\
            reduction_percent c = (o - new_prediction c) / o * 100) cs /\
  (length cs <= 5)%nat.
Proof.
  intros H. split.
  - destruct (counterfactual_candidates_accepted _ _ _ _ _ _ H)
      as (m & s & input_data & processed & scaled & _ & _ & _ & _ & _ & Hall).
    eapply Forall_impl; [|exact Hall].
    intros c (x & _ & idx & modified & predictions & Hacc).
    tauto.
  - exact (proj2 (counterfactual_candidates_ranked _ _ _ _ _ _ H)).
Qed.

(** In exact arithmetic, every candidate returned by POST /explain/cf
    reports as distance the Euclidean norm of the difference between the
    modified and the original scaled vector, where the modified vector is
    the original with the single coordinate of the candidate's feature
    replaced by the suggested value, and this distance is the absolute
    value of the candidate's change.  The binary64 reading is below. *)
Lemma distance_in_exact_arithmetic E data g o t cs :
  body (fst (explain_counterfactual E data g)) = CfBody o t cs ->
  exists s input_data processed scaled,
    scaler E = Some s /\
    input data = Some input_data /\
    preprocess_input E input_data = Ok processed /\
    transform s [processed] = Ok scaled /\
    Forall (fun c =>
              (exists x idx modified,
                  get scaled 0 = Ok x /\
                  nth_error x idx = Some (original_value c) /\
                  suggested_value c = original_value c + change c /\
                  set_item x idx (suggested_value c) = Ok modified /\
                  distance c = norm (vsub modified x)) /\
              distance c = Rabs (change c)) cs.
Proof.
  intros H.
  destruct (counterfactual_candidates_accepted _ _ _ _ _ _ H)
    as (m & s & input_data & processed & scaled & _ & Hs & Hi & Hp & Ht & Hall).
  exists s, input_data, processed, scaled. repeat split; auto.
  eapply Forall_impl; [|exact Hall].
  intros c (x & Hx & Hacc). split.
  - destruct Hacc as (idx & modified & predictions & Hn & Hsug & Hset & _
                      & _ & _ & _ & Hd).
    exists x, idx, modified. auto.
  - exact (accepted_distance _ _ _ _ Hacc).
Qed.

(** C4.  Two counterfactual requests with the same input, against the same
    deployment and the same generator state, that differ only in the target
    factor get the same original prediction and the same candidates (or
    the same error), and leave the generator in the same state; the factor
    shows only in target_prediction, which is the original prediction times
    the factor. *)
Theorem target_factor_informational E input_data t1 t2 g :
  let data1 := {| input := input_data; target := t1 |} in
  let data2 := {| input := input_data; target := t2 |} in
  let r1 := explain_counterfactual E data1 g in
  let r2 := explain_counterfactual E data2 g in
  snd r1 = snd r2 /\
  status (fst r1) = status (fst r2) /\
  match body (fst r1), body (fst r2) with
  | CfBody o1 tp1 c1, CfBody o2 tp2 c2 =>
      o1 = o2 /\ c1 = c2 /\
      tp1 = o1 * requested_factor data1 /\
      tp2 = o2 * requested_factor data2
  | b1, b2 => b1 = b2
  end.
Proof.
  cbv zeta.
  unfold explain_counterfactual, explain_counterfactual_try, requested_factor.
  unfold bind, ret, lift. cbn [input target].
  destruct (model E) as [m|]; [|simpl; auto].
  destruct (scaler E) as [s|]; [|simpl; auto].
  destruct (feature_columns E) as [cols|]; [|simpl; auto].
  destruct input_data as [input_data|]; [|simpl; auto].
  destruct (preprocess_input E input_data) as [processed|]; [|simpl; auto].
  destruct (transform s [processed]) as [scaled|]; [|simpl; auto].
  destruct (predict m scaled) as [predictions|]; [|simpl; auto].
  destruct (get predictions 0) as [o|]; [|simpl; auto].
  destruct (generate_background_data E 100 g) as [[[bg|]|] g1];
    [|simpl; auto|simpl; auto].
  destruct (fold_res _ _ _) as [found|]; simpl; auto.
  repeat split; reflexivity.
Qed.

(** ** The distance of a candidate in binary64 *)














(** ** The explanation cache *)

Lemma load_some now f e :
  load_cached_global_explanation now f = Some e <->
  exists ts t,
    f = CacheDoc ts (Some e) /\ stamp_time ts = Some t /\ (now - t <= ttl)%Z.
Proof.
  unfold load_cached_global_explanation, read_cache. split.
  - destruct f as [| |ts expl]; try discriminate.
    destruct ts as [| |t|t]; simpl; try discriminate.
    + destruct (Z.gtb_spec (now - default_timestamp) ttl); [discriminate|].
      intros ->. exists StampAbsent, default_timestamp. auto.
    + destruct (Z.gtb_spec (now - t) ttl); [discriminate|].
      intros ->. exists (StampNaive t), t. auto.
  - intros (ts & t & -> & Hts & Hle).
    destruct ts as [| |t'|t']; simpl in *; inversion Hts; subst.
    + destruct (Z.gtb_spec (now - default_timestamp) ttl); [lia|reflexivity].
    + destruct (Z.gtb_spec (now - t) ttl); [lia|reflexivity].
Qed.

(** C6.  Loading the cache gives the cached explanation exactly when the
    file exists, parses, and its timestamp is within seven days of the
    clock at load; a missing file, a corrupt file, an unparsable timestamp
    and a timestamp more than seven days old all give no cache; whatever
    is raised while reading is turned into no cache. *)
Theorem cache_load_policy now :
  (forall f e,
      load_cached_global_explanation now f = Some e <->
      exists ts t,
        f = CacheDoc ts (Some e) /\ stamp_time ts = Some t /\
        (now - t <= 7 * microseconds_per_day)%Z) /\
  load_cached_global_explanation now NoFile = None /\
  load_cached_global_explanation now Unreadable = None /\
  (forall expl,
      load_cached_global_explanation now (CacheDoc StampInvalid expl) = None) /\
  (forall t expl,
      (now - t > 7 * microseconds_per_day)%Z ->
      load_cached_global_explanation now (CacheDoc (StampNaive t) expl) = None) /\
  (forall f msg,
      read_cache now f = Raise msg ->
      load_cached_global_explanation now f = None).
Proof.
  change (7 * microseconds_per_day)%Z with ttl.
  split; [intros f e; apply load_some|].
  repeat split.
  - intros t expl Hold.
    unfold load_cached_global_explanation, read_cache; simpl.
    destruct (Z.gtb_spec (now - t) ttl); [reflexivity|lia].
  - intros f msg Hmsg. unfold load_cached_global_explanation.
    rewrite Hmsg. now destruct f.
Qed.

(** ** GET /explain/global *)

Lemma global_hit E now_load now_save fs g m s cols e :
  model E = Some m -> scaler E = Some s -> feature_columns E = Some cols ->
  load_cached_global_explanation now_load (cache fs) = Some e ->
  explain_global E now_load now_save fs g =
  (jsonify (GlobalBody (mark_cached e)), fs, g).
Proof.
  intros Hm Hs Hc Hl. unfold explain_global, explain_global_try.
  now rewrite Hm, Hs, Hc, Hl.
Qed.

(** A successful answer is either the cached explanation or a fresh one,
    ranked, flagged as not cached and passed to the cache. *)
Lemma global_inversion E now_load now_save fs g e :
  body (fst (fst (explain_global E now_load now_save fs g))) = GlobalBody e ->
  (exists m s cols,
      model E = Some m /\ scaler E = Some s /\ feature_columns E = Some cols) /\
  ((exists e0,
       load_cached_global_explanation now_load (cache fs) = Some e0 /\
       e = mark_cached e0 /\
       snd (fst (explain_global E now_load now_save fs g)) = fs) \/
   (load_cached_global_explanation now_load (cache fs) = None /\
    (exists importance,
        feature_importance e = sort (key_desc snd) importance) /\
    cached e = false /\
    snd (fst (explain_global E now_load now_save fs g)) =
      save_cached_global_explanation now_save e fs)).
Proof.
  unfold explain_global, explain_global_try.
  destruct (model E) as [m|]; [|discriminate].
  destruct (scaler E) as [s|]; [|discriminate].
  destruct (feature_columns E) as [cols|]; [|discriminate].
  intros H. split; [now exists m, s, cols|].
  destruct (load_cached_global_explanation now_load (cache fs)) as [e0|].
  - left. exists e0. simpl in H. inversion H; subst. auto.
  - right. split; [reflexivity|].
    destruct (negb (SHAP_AVAILABLE E)); [discriminate|].
    unfold bind, ret, lift in *.
    destruct (get_shap_explainer E g) as [[[ex|]|] g1];
      [|discriminate|discriminate].
    destruct (generate_background_data E 100 g1) as [[[bg|]|] g2];
      [|discriminate|discriminate].
    destruct (shap_values ex bg) as [values|]; [|discriminate].
    destruct (for_each _ _) as [importance|]; [|discriminate].
    simpl in *. inversion H; subst; simpl.
    repeat split; auto. now exists importance.
Qed.


(** A second call that finds the entry left by a successful first call
    still fresh repeats its feature_importance. *)
Lemma global_repeat E now1 save1 now2 save2 fs g e1 :
  let run1 := explain_global E now1 save1 fs g in
  let fs1 := snd (fst run1) in
  body (fst (fst run1)) = GlobalBody e1 ->
  (now1 <= now2)%Z ->
  (exists ts t e,
      cache fs1 = CacheDoc ts (Some e) /\ stamp_time ts = Some t /\
      (now2 - t <= ttl)%Z) ->
  exists e2,
    explain_global E now2 save2 fs1 (snd run1) =
      (jsonify (GlobalBody e2), fs1, snd run1) /\
    feature_importance e2 = feature_importance e1 /\
    cached e2 = true.
Proof.
  cbv zeta. intros H Hmono (ts & t & e & Hdoc & Hts & Hfresh).
  destruct (global_inversion _ _ _ _ _ _ H)
    as [(m & s & cols & Hm & Hs & Hc) [(e0 & Hl & -> & Hfs)|(Hl & _ & _ & Hfs)]].
  - rewrite Hfs in *.
    apply load_some in Hl as (ts0 & t0 & Hdoc0 & _ & _).
    rewrite Hdoc0 in Hdoc. inversion Hdoc; subst.
    exists (mark_cached e). repeat split.
    eapply global_hit; eauto.
    apply load_some. rewrite Hdoc0. eauto.
  - rewrite Hfs in *. unfold save_cached_global_explanation in *.
    destruct (writable fs) eqn:Hw.
    + simpl in Hdoc. inversion Hdoc; subst.
      exists (mark_cached e). repeat split.
      eapply global_hit; eauto.
      apply load_some. simpl. eauto.
    + assert (load_cached_global_explanation now1 (cache fs) = Some e) as Hl'.
      { apply load_some. exists ts, t. repeat split; auto. lia. }
      congruence.
Qed.

(** C7, amended.  When a call of GET /explain/global succeeds and a later
    call finds the cache entry left in the file no more than seven days past
    the entry's own timestamp, the later call answers with the same
    feature_importance and cached=true, and changes neither the file nor
    the generator.  The seven days run from the time the entry was saved:
    when the first call computed the explanation and could write the file,
    that is the clock it read on saving. *)
Theorem global_repeat_within_ttl E now1 save1 now2 save2 fs g e1 :
  let run1 := explain_global E now1 save1 fs g in
  let fs1 := snd (fst run1) in
  body (fst (fst run1)) = GlobalBody e1 ->
  ((now1 <= now2)%Z ->
   (exists ts t e,
       cache fs1 = CacheDoc ts (Some e) /\ stamp_time ts = Some t /\
       (now2 - t <= 7 * microseconds_per_day)%Z) ->
   exists e2,
     explain_global E now2 save2 fs1 (snd run1) =
       (jsonify (GlobalBody e2), fs1, snd run1) /\
     feature_importance e2 = feature_importance e1 /\
     cached e2 = true) /\
  (load_cached_global_explanation now1 (cache fs) = None ->
   writable fs = true ->
   cache fs1 = CacheDoc (StampNaive save1) (Some e1) /\
   ((now2 - save1 <= 7 * microseconds_per_day)%Z ->
    exists e2,
      explain_global E now2 save2 fs1 (snd run1) =
        (jsonify (GlobalBody e2), fs1, snd run1) /\
      feature_importance e2 = feature_importance e1 /\
      cached e2 = true)).
Proof.
  cbv zeta. change (7 * microseconds_per_day)%Z with ttl. intros H. split.
  - intros Hmono Hfresh.
    exact (global_repeat E now1 save1 now2 save2 fs g e1 H Hmono Hfresh).
  - intros Hmiss Hw.
    destruct (global_inversion _ _ _ _ _ _ H)
      as [(m & s & cols & Hm & Hs & Hc) [(e0 & Hl & _)|(_ & _ & _ & Hfs)]];
      [congruence|].
    rewrite Hfs. unfold save_cached_global_explanation. rewrite Hw. simpl.
    split; [reflexivity|]. intros Hfresh.
    exists (mark_cached e1). repeat split.
    eapply global_hit; eauto.
    apply load_some. exists (StampNaive save1), save1. auto.
Qed.

(** ** Rankings *)

Lemma Sorted_weaken {A} (R1 R2 : A -> A -> Prop) (l : list A) :
  (forall a b, R1 a b -> R2 a b) -> Sorted R1 l -> Sorted R2 l.
Proof.
  intros Himp. induction 1 as [|a l Hs IH Hhd]; constructor; auto.
  destruct Hhd; constructor; auto.
Qed.

Lemma sort_importance_ranked (l : list (string * R)) :
  importance_ranked (sort (key_desc snd) l).
Proof.
  eapply Sorted_weaken; [|apply sort_sorted, key_desc_asym].
  intros a b. apply key_desc_in_order.
Qed.

(** What a call leaves in the file system. *)
Lemma global_store E now_load now_save fs g :
  let fs' := snd (fst (explain_global E now_load now_save fs g)) in
  fs' = fs \/
  exists e importance,
    feature_importance e = sort (key_desc snd) importance /\
    fs' = save_cached_global_explanation now_save e fs.
Proof.
  cbv zeta. unfold explain_global, explain_global_try.
  destruct (model E) as [m|]; [|now left].
  destruct (scaler E) as [s|]; [|now left].
  destruct (feature_columns E) as [cols|]; [|now left].
  destruct (load_cached_global_explanation now_load (cache fs)) as [e0|];
    [now left|].
  destruct (negb (SHAP_AVAILABLE E)); [now left|].
  unfold bind, ret, lift.
  destruct (get_shap_explainer E g) as [[[ex|]|] g1];
    [|now left|now left].
  destruct (generate_background_data E 100 g1) as [[[bg|]|] g2];
    [|now left|now left].
  destruct (shap_values ex bg) as [values|]; [|now left].
  destruct (for_each _ _) as [importance|]; [|now left].
  right. eexists. exists importance. split; cycle 1.
  - cbn [snd fst]. reflexivity.
  - reflexivity.
Qed.

Lemma left_by_service_ranked f : left_by_service f -> cache_ranked f.
Proof.
  induction 1 as [| |E now_load now_save fs g Hleft IH]; simpl; auto.
  destruct (global_store E now_load now_save fs g) as [->|(e & imp & He & ->)];
    [assumption|].
  unfold save_cached_global_explanation.
  destruct (writable fs); [|assumption].
  simpl. rewrite He. apply sort_importance_ranked.
Qed.

Lemma local_inversion E data g p cs txt :
  body (fst (explain_local E data g)) = LocalBody p cs txt ->
  exists listed, cs = sort (key_desc (fun c => Rabs (c_shap c))) listed.
Proof.
  unfold explain_local, explain_local_try. unfold bind, ret, lift.
  destruct (model E) as [m|]; [|discriminate].
  destruct (scaler E) as [s|]; [|discriminate].
  destruct (feature_columns E) as [cols|]; [|discriminate].
  destruct (input data) as [input_data|]; [|discriminate].
  destruct (preprocess_input E input_data) as [processed|]; [|discriminate].
  destruct (transform s [processed]) as [scaled|]; [|discriminate].
  destruct (predict m scaled) as [predictions|]; [|discriminate].
  destruct (get predictions 0) as [prediction|]; [|discriminate].
  destruct (negb (SHAP_AVAILABLE E)); [discriminate|].
  destruct (get_shap_explainer E g) as [[[ex|]|] g1];
    [|discriminate|discriminate].
  destruct (get scaled 0) as [x|]; [|discriminate].
  destruct (shap_values_1d ex x) as [values|]; [|discriminate].
  destruct (for_each _ _) as [listed|]; [|discriminate].
  simpl. intros H. inversion H; subst. now exists listed.
Qed.

(** C3.  Every ranked output is in the order of its sort key: the
    feature_importance of the global endpoint does not increase in
    mean_abs_shap from an entry to the next, the contributions of the local
    endpoint do not increase in absolute shap value, and from a
    counterfactual candidate to the next the reduction_percent decreases
    or stays equal with a distance that does not decrease.  The cache file
    is any file the service can find: none, a torn one, or one left by
    earlier calls of the global endpoint. *)
Theorem rankings_monotone E now_load now_save fs g data :
  left_by_service (cache fs) ->
  (forall e,
      body (fst (fst (explain_global E now_load now_save fs g)))
        = GlobalBody e ->
      Sorted (fun a b => snd b <= snd a) (feature_importance e)) /\
  (forall p cs txt,
      body (fst (explain_local E data g)) = LocalBody p cs txt ->
      Sorted (fun a b => Rabs (c_shap b) <= Rabs (c_shap a)) cs) /\
  (forall o t cs,
      body (fst (explain_counterfactual E data g)) = CfBody o t cs ->
      Sorted (fun a b =>
                reduction_percent b < reduction_percent a \/
                (reduction_percent b = reduction_percent a /\
                 distance a <= distance b)) cs).
Proof.
  intros Hleft. repeat split.
  - intros e He. apply left_by_service_ranked in Hleft.
    destruct (global_inversion _ _ _ _ _ _ He)
      as [_ [(e0 & Hl & -> & _)|(_ & (imp & Hi) & _ & _)]].
    + apply load_some in Hl as (ts & t & Hdoc & _ & _).
      rewrite Hdoc in Hleft. exact Hleft.
    + rewrite Hi. apply sort_importance_ranked.
  - intros p cs txt H. apply local_inversion in H as (listed & ->).
    eapply Sorted_weaken; [|apply sort_sorted, key_desc_asym].
    intros a b. apply key_desc_in_order.
  - intros o t cs H.
    eapply Sorted_weaken;
      [|exact (proj1 (counterfactual_candidates_ranked _ _ _ _ _ _ H))].
    intros a b. apply cf_in_order.
Qed.

(** ** The background sampler *)

Lemma mem_In (feat : string) (cols : list string) :
  mem feat cols = true <-> In feat cols.
Proof.
  unfold mem. rewrite existsb_exists. split.
  - intros (c & Hin & Heq). apply String.eqb_eq in Heq. now subst.
  - intros Hin. exists feat. split; [assumption|apply String.eqb_refl].
Qed.

Lemma draw_many_length {A} (d : rng -> A * rng) (n : nat) (g : rng) :
  length (fst (draw_many d n g)) = n.
Proof.
  revert g. induction n as [|n IH]; intros g; simpl; [reflexivity|].
  destruct (d g) as [a g1]. specialize (IH g1).
  destruct (draw_many d n g1) as [l g2]. simpl in *. now rewrite IH.
Qed.

Lemma draw_array_ok d n g l g' :
  draw_array d n g = (Ok l, g') -> (0 <= n)%Z /\ length l = Z.to_nat n.
Proof.
  unfold draw_array, raise, draw.
  destruct (Z.ltb_spec n 0) as [Hneg|Hpos]; [discriminate|].
  pose proof (draw_many_length d (Z.to_nat n) g) as Hlen.
  destruct (draw_many d (Z.to_nat n) g) as [l0 g0]. simpl in Hlen.
  intros H; inversion H; subst. auto.
Qed.

Lemma draw_array_total d n g :
  (0 <= n)%Z -> exists l g', draw_array d n g = (Ok l, g').
Proof.
  intros Hn. unfold draw_array, draw.
  destruct (Z.ltb_spec n 0) as [Hneg|Hpos]; [lia|].
  destruct (draw_many d (Z.to_nat n) g) as [l g']. eauto.
Qed.

Lemma draw_total {A} (d : rng -> A * rng) g :
  exists a g', draw d g = (Ok a, g').
Proof. unfold draw. destruct (d g) as [a g']. eauto. Qed.

Section Fill.
Context {V X : Type}.
Variable cols : list string.
Variable f : V -> M X.

Lemma fill_names (items : list (string * V)) :
  forall g l g',
    fill cols items f g = (Ok l, g') ->
    map fst l = filter (fun k => mem k cols) (map fst items).
Proof.
  induction items as [|[feat v] items IH]; simpl; intros g l g' H.
  - inversion H; subst. reflexivity.
  - destruct (mem feat cols); [|eauto].
    unfold bind, ret in H.
    destruct (f v g) as [[x|] g1]; [|discriminate].
    destruct (fill cols items f g1) as [[d|] g2] eqn:Hd; [|discriminate].
    inversion H; subst. simpl. f_equal. eauto.
Qed.

Lemma fill_values (P : X -> Prop) (items : list (string * V)) :
  (forall v g x g', f v g = (Ok x, g') -> P x) ->
  forall g l g',
    fill cols items f g = (Ok l, g') -> Forall (fun c => P (snd c)) l.
Proof.
  intros Hf.
  induction items as [|[feat v] items IH]; simpl; intros g l g' H.
  - inversion H; subst. constructor.
  - destruct (mem feat cols); [|eauto].
    unfold bind, ret in H.
    destruct (f v g) as [[x|] g1] eqn:Hx; [|discriminate].
    destruct (fill cols items f g1) as [[d|] g2] eqn:Hd; [|discriminate].
    inversion H; subst. constructor; eauto.
Qed.

Lemma fill_total (items : list (string * V)) :
  (forall v g, exists x g', f v g = (Ok x, g')) ->
  forall g, exists l g', fill cols items f g = (Ok l, g').
Proof.
  intros Hf.
  induction items as [|[feat v] items IH]; simpl; intros g.
  - unfold ret. eauto.
  - destruct (mem feat cols); [|eauto].
    unfold bind, ret.
    destruct (Hf v g) as (x & g1 & ->).
    destruct (IH g1) as (d & g2 & ->). eauto.
Qed.
End Fill.

Lemma first_row_ok (df : list (string * list R)) (d : list (string * R)) :
  first_row df = Ok d -> Forall (fun c => snd c <> []) df.
Proof.
  revert d. induction df as [|[feat col] df IH]; intros d H; [constructor|].
  simpl in H. destruct col as [|x col]; [discriminate|].
  destruct (first_row df) as [d'|]; [|discriminate].
  constructor; [discriminate|eauto].
Qed.

Lemma first_row_total (df : list (string * list R)) :
  Forall (fun c => snd c <> []) df -> exists d, first_row df = Ok d.
Proof.
  induction 1 as [|[feat col] df Hc _ IH]; simpl; [eauto|].
  destruct col as [|x col]; [now elim Hc|].
  destruct IH as (d & ->). eauto.
Qed.

Lemma frame_has_column (cols : list string) (num cat : list (string * list R)) :
  map fst num = filter (fun k => mem k cols) (map fst numeric_features) ->
  map fst cat = filter (fun k => mem k cols) (map fst categorical_defaults) ->
  (exists feat, In feat cols /\ known feat) ->
  (num ++ cat)%list <> [].
Proof.
  intros Hnum Hcat (feat & Hin & Hknown) Hnil.
  apply app_eq_nil in Hnil as [-> ->].
  apply mem_In in Hin.
  destruct Hknown as [Hk|Hk].
  - assert (In feat (filter (fun k => mem k cols) (map fst numeric_features)))
      as H by (apply filter_In; auto).
    rewrite <- Hnum in H. exact H.
  - assert (In feat
              (filter (fun k => mem k cols) (map fst categorical_defaults)))
      as H by (apply filter_In; auto).
    rewrite <- Hcat in H. exact H.
Qed.

Lemma vstack_ok (a b c : list (list R)) : vstack a b = Ok c -> c = (a ++ b)%list.
Proof.
  unfold vstack. destruct a as [|ra a], b as [|rb b];
    try (intros H; inversion H; reflexivity).
  destruct (Nat.eqb (length ra) (length rb)); [|discriminate].
  intros H; inversion H; reflexivity.
Qed.

Lemma draw_sample_total E cols g :
  exists s g', draw_sample E cols g = (Ok s, g').
Proof.
  unfold draw_sample, bind, ret.
  destruct (fill_total cols
              (fun '(min_val, max_val) => draw (uniform E min_val max_val))
              numeric_features) with (g := g) as (num & g1 & ->).
  { intros [lo hi] g0. apply draw_total. }
  destruct (fill_total cols (fun values => draw (choice E values))
              categorical_defaults) with (g := g1) as (cat & g2 & ->).
  { intros values g0. apply draw_total. }
  eauto.
Qed.

Section SampleLoop.
Variable E : Env.
Variable cols : list string.
Variable width : nat.

Hypothesis preprocess_aligned :
  forall s r, preprocess_input E s = Ok r -> length r = width.

Lemma sample_loop_shape (k : nat) :
  forall acc g bs g',
    aligned width acc ->
    sample_loop E cols k acc g = (Ok bs, g') ->
    length bs = (length acc + k)%nat /\ aligned width bs.
Proof.
  induction k as [|k IH]; simpl; intros acc g bs g' Hacc H.
  - inversion H; subst. split; [lia|assumption].
  - unfold bind, lift in H.
    destruct (draw_sample E cols g) as [[s|] g1]; [|discriminate].
    destruct (preprocess_input E s) as [r|] eqn:Hr; [|discriminate].
    apply preprocess_aligned in Hr.
    destruct (Nat.eqb_spec (length acc) 0) as [Hz|Hnz].
    + apply IH in H as [Hlen Hal]; [|repeat constructor; assumption].
      simpl in Hlen. split; [lia|assumption].
    + destruct (vstack acc [r]) as [stacked|] eqn:Hst; [|discriminate].
      apply vstack_ok in Hst; subst stacked.
      apply IH in H as [Hlen Hal].
      * rewrite length_app in Hlen. simpl in Hlen. split; [lia|assumption].
      * apply Forall_app. split; [assumption|]. now repeat constructor.
Qed.

Hypothesis preprocess_total : forall s, exists r, preprocess_input E s = Ok r.

Lemma sample_loop_total (k : nat) :
  forall acc g,
    aligned width acc -> exists bs g', sample_loop E cols k acc g = (Ok bs, g').
Proof.
  induction k as [|k IH]; simpl; intros acc g Hacc.
  - unfold ret. eauto.
  - unfold bind, lift.
    destruct (draw_sample_total E cols g) as (s & g1 & ->).
    destruct (preprocess_total s) as (r & Hr). rewrite Hr.
    apply preprocess_aligned in Hr.
    destruct (Nat.eqb_spec (length acc) 0) as [Hz|Hnz].
    + apply IH. now repeat constructor.
    + destruct acc as [|ra acc]; [now elim Hnz|].
      unfold vstack.
      assert (length ra = width) as Hra by now inversion Hacc.
      rewrite Hra, Hr, Nat.eqb_refl.
      apply IH. apply Forall_app. split; [assumption|].
      now repeat constructor.
Qed.
End SampleLoop.

(** The stages a successful sampling went through. *)
Lemma background_inversion E n g c cs bg g' :
  feature_columns E = Some (c :: cs) ->
  generate_background_data E n g = (Ok (Some bg), g') ->
  exists num cat g1 g2 first bs,
    fill (c :: cs) numeric_features
      (fun '(min_val, max_val) => draw_array (uniform E min_val max_val) n) g
      = (Ok num, g1) /\
    fill (c :: cs) categorical_defaults
      (fun values => draw_array (choice E values) n) g1 = (Ok cat, g2) /\
    iloc0 (num ++ cat)%list = Ok first /\
    sample_loop E (c :: cs) (Z.to_nat n) [] g2 = (Ok bs, g') /\
    match scaler E with
    | Some s => transform s bs = Ok bg
    | None => bg = bs
    end.
Proof.
  intros Hc. unfold generate_background_data. rewrite Hc.
  unfold bind, ret, lift.
  destruct (fill _ numeric_features _ g) as [[num|] g1] eqn:Hnum;
    [|discriminate].
  destruct (fill _ categorical_defaults _ g1) as [[cat|] g2] eqn:Hcat;
    [|discriminate].
  destruct (iloc0 _) as [first|] eqn:Hfirst; [|discriminate].
  destruct (preprocess_input E first) as [r|]; [|discriminate].
  destruct (sample_loop _ _ _ _ g2) as [[bs|] g3] eqn:Hloop; [|discriminate].
  destruct (scaler E) as [s|].
  - destruct (transform s bs) as [scaled|] eqn:Hs; [|discriminate].
    intros H; inversion H; subst.
    exists num, cat, g1, g2, first, bs. repeat split; auto.
  - intros H; inversion H; subst.
    exists num, cat, g1, g2, first, bg. repeat split; auto.
Qed.

(** A frame with a row was drawn with a positive size. *)
Lemma frame_row_positive E cols n g g1 g2 num cat first :
  fill cols numeric_features
    (fun '(min_val, max_val) => draw_array (uniform E min_val max_val) n) g
    = (Ok num, g1) ->
  fill cols categorical_defaults
    (fun values => draw_array (choice E values) n) g1 = (Ok cat, g2) ->
  iloc0 (num ++ cat)%list = Ok first ->
  (1 <= n)%Z.
Proof.
  intros Hnum Hcat Hfirst.
  assert (Forall (fun col : string * list R =>
                    (0 <= n)%Z /\ length (snd col) = Z.to_nat n)
                 (num ++ cat)%list) as Hlen.
  { apply Forall_app. split.
    - eapply (fill_values cols _
                (fun col : list R => (0 <= n)%Z /\ length col = Z.to_nat n));
        [|exact Hnum].
      intros [lo hi] g0 x g0'. apply draw_array_ok.
    - eapply (fill_values cols _
                (fun col : list R => (0 <= n)%Z /\ length col = Z.to_nat n));
        [|exact Hcat].
      intros values g0 x g0'. apply draw_array_ok. }
  unfold iloc0 in Hfirst.
  destruct (num ++ cat)%list as [|[feat col] df] eqn:Hdf; [discriminate|].
  apply first_row_ok in Hfirst.
  inversion Hfirst as [|? ? Hne _]; subst.
  inversion Hlen as [|? ? [Hn Hcol] _]; subst. simpl in *.
  destruct col as [|x col]; [now elim Hne|]. simpl in Hcol. lia.
Qed.

Lemma background_no_schema E n g :
  feature_columns E = None \/ feature_columns E = Some [] ->
  generate_background_data E n g = (Ok None, g).
Proof.
  unfold generate_background_data. now intros [-> | ->].
Qed.

Lemma background_none_inversion E n g :
  fst (generate_background_data E n g) = Ok None ->
  feature_columns E = None \/ feature_columns E = Some [].
Proof.
  unfold generate_background_data.
  destruct (feature_columns E) as [[|c cs]|]; auto.
  unfold bind, ret, lift.
  destruct (fill _ numeric_features _ g) as [[num|] g1]; [|discriminate].
  destruct (fill _ categorical_defaults _ g1) as [[cat|] g2]; [|discriminate].
  destruct (iloc0 _) as [first|]; [|discriminate].
  destruct (preprocess_input E first) as [r|]; [|discriminate].
  destruct (sample_loop _ _ _ _ g2) as [[bs|] g3]; [|discriminate].
  destruct (scaler E) as [s|]; [|discriminate].
  destruct (transform s bs); discriminate.
Qed.

Lemma background_total E cols n g :
  feature_columns E = Some cols ->
  (forall s r, preprocess_input E s = Ok r -> length r = length cols) ->
  (1 <= n)%Z ->
  (exists feat, In feat cols /\ known feat) ->
  (forall s, exists r, preprocess_input E s = Ok r) ->
  (forall s m, scaler E = Some s -> exists m', transform s m = Ok m') ->
  exists bg, fst (generate_background_data E n g) = Ok (Some bg).
Proof.
  intros Hc Hal Hn Hknown Hpre Hsc.
  unfold generate_background_data. rewrite Hc.
  destruct cols as [|c cs]; [now destruct Hknown as (feat & [] & _)|].
  unfold bind, ret, lift.
  destruct (fill_total (c :: cs)
              (fun '(min_val, max_val) =>
                 draw_array (uniform E min_val max_val) n)
              numeric_features) with (g := g) as (num & g1 & Hnum).
  { intros [lo hi] g0. apply draw_array_total. lia. }
  rewrite Hnum.
  destruct (fill_total (c :: cs)
              (fun values => draw_array (choice E values) n)
              categorical_defaults) with (g := g1) as (cat & g2 & Hcat).
  { intros values g0. apply draw_array_total. lia. }
  rewrite Hcat.
  assert (exists first, iloc0 (num ++ cat)%list = Ok first) as (first & ->).
  { pose proof (frame_has_column (c :: cs) num cat
                  (fill_names _ _ _ _ _ _ Hnum) (fill_names _ _ _ _ _ _ Hcat)
                  Hknown) as Hne.
    unfold iloc0. destruct (num ++ cat)%list as [|col df] eqn:Hdf;
      [now elim Hne|].
    apply first_row_total. rewrite <- Hdf.
    assert (forall d l g0 g0',
               draw_array d n g0 = (Ok l, g0') -> l <> []) as Hcol.
    { intros d l g0 g0' H. apply draw_array_ok in H as [_ Hlen].
      intros ->. simpl in Hlen. lia. }
    apply Forall_app. split.
    - eapply (fill_values (c :: cs) _ (fun col : list R => col <> []));
        [|exact Hnum].
      intros [lo hi] g0 x g0'. apply Hcol.
    - eapply (fill_values (c :: cs) _ (fun col : list R => col <> []));
        [|exact Hcat].
      intros values g0 x g0'. apply Hcol. }
  destruct (Hpre first) as (r0 & ->).
  destruct (sample_loop_total E (c :: cs) (length (c :: cs)) Hal Hpre
              (Z.to_nat n) [] g2) as (bs & g3 & ->); [constructor|].
  destruct (scaler E) as [s|] eqn:Hs; [|simpl; eauto].
  destruct (Hsc s bs eq_refl) as (m' & ->). simpl. eauto.
Qed.

(** C8, amended.  With a preprocessor that returns rows as long as the
    schema and a scaler that keeps the shape of its argument:
    whenever generate_background(n) returns a matrix, n is at least 1, the
    matrix has exactly n rows and every row is as long as the schema; it
    returns "unavailable" only for an empty schema; and for n at least 1, a
    schema with a feature the sampler knows, and a preprocessor and a scaler
    that do not raise, it does return a matrix. *)
Theorem background_shape E cols n g :
  feature_columns E = Some cols ->
  (forall s r, preprocess_input E s = Ok r -> length r = length cols) ->
  (forall s m m',
      scaler E = Some s -> transform s m = Ok m' ->
      length m' = length m /\
      (Forall (fun r => length r = length cols) m ->
       Forall (fun r => length r = length cols) m')) ->
  (forall bg,
      fst (generate_background_data E n g) = Ok (Some bg) ->
      (1 <= n)%Z /\ Z.of_nat (length bg) = n /\
      Forall (fun r => length r = length cols) bg) /\
  (fst (generate_background_data E n g) = Ok None -> cols = []) /\
  ((1 <= n)%Z ->
   (exists feat, In feat cols /\ known feat) ->
   (forall s, exists r, preprocess_input E s = Ok r) ->
   (forall s m, scaler E = Some s -> exists m', transform s m = Ok m') ->
   exists bg, fst (generate_background_data E n g) = Ok (Some bg)).
Proof.
  intros Hc Hal Hshape. repeat split.
  - destruct (generate_background_data E n g) as [r g'] eqn:Hrun.
    simpl in H. subst r.
    destruct cols as [|c cs];
      [unfold generate_background_data in Hrun; rewrite Hc in Hrun;
       discriminate|].
    destruct (background_inversion E n g c cs bg g' Hc Hrun)
      as (num & cat & g1 & g2 & first & bs & Hnum & Hcat & Hfirst & _).
    exact (frame_row_positive E _ n g g1 g2 num cat first Hnum Hcat Hfirst).
  - destruct (generate_background_data E n g) as [r g'] eqn:Hrun.
    simpl in H. subst r.
    destruct cols as [|c cs];
      [unfold generate_background_data in Hrun; rewrite Hc in Hrun;
       discriminate|].
    destruct (background_inversion E n g c cs bg g' Hc Hrun)
      as (num & cat & g1 & g2 & first & bs & Hnum & Hcat & Hfirst & Hloop
          & Hscale).
    pose proof (frame_row_positive E _ n g g1 g2 num cat first
                  Hnum Hcat Hfirst) as Hn.
    destruct (sample_loop_shape E (c :: cs) (length (c :: cs)) Hal
                (Z.to_nat n) [] g2 bs g' (Forall_nil _) Hloop) as [Hlen _].
    destruct (scaler E) as [s|] eqn:Hs.
    + destruct (Hshape s bs bg eq_refl Hscale) as [Hl _].
      rewrite Hl, Hlen. simpl. lia.
    + subst bg. rewrite Hlen. simpl. lia.
  - destruct (generate_background_data E n g) as [r g'] eqn:Hrun.
    simpl in H. subst r.
    destruct cols as [|c cs];
      [unfold generate_background_data in Hrun; rewrite Hc in Hrun;
       discriminate|].
    destruct (background_inversion E n g c cs bg g' Hc Hrun)
      as (num & cat & g1 & g2 & first & bs & _ & _ & _ & Hloop & Hscale).
    destruct (sample_loop_shape E (c :: cs) (length (c :: cs)) Hal
                (Z.to_nat n) [] g2 bs g' (Forall_nil _) Hloop) as [_ Hbs].
    destruct (scaler E) as [s|] eqn:Hs.
    + destruct (Hshape s bs bg eq_refl Hscale) as [_ Hw]. now apply Hw.
    + now subst bg.
  - intros Hnone. apply background_none_inversion in Hnone as [Hn|Hn];
      congruence.
  - intros Hn Hknown Hpre Hsc.
    exact (background_total E cols n g Hc Hal Hn Hknown Hpre Hsc).
Qed.

(** C2, amended.  generate_background(n) returns "unavailable" when the
    schema is missing or empty, for every n, without raising and without
    drawing from the generator.  With a schema and no scaler it does not
    return "unavailable": what it returns, when nothing raises, is the
    stack of preprocessed samples, unscaled. *)
Theorem background_unavailable E n g :
  (feature_columns E = None \/ feature_columns E = Some [] ->
   generate_background_data E n g = (Ok None, g)) /\
  (forall c cs,
      feature_columns E = Some (c :: cs) ->
      scaler E = None ->
      fst (generate_background_data E n g) <> Ok None /\
      forall bg,
        fst (generate_background_data E n g) = Ok (Some bg) ->
        exists g0,
          sample_loop E (c :: cs) (Z.to_nat n) [] g0 =
          (Ok bg, snd (generate_background_data E n g))).
Proof.
  split; [apply background_no_schema|].
  intros c cs Hc Hs. split.
  - intros Hnone. apply background_none_inversion in Hnone as [Hn|Hn];
      congruence.
  - intros bg Hbg.
    destruct (generate_background_data E n g) as [r g'] eqn:Hrun.
    simpl in *. subst r.
    destruct (background_inversion E n g c cs bg g' Hc Hrun)
      as (num & cat & g1 & g2 & first & bs & _ & _ & _ & Hloop & Hscale).
    rewrite Hs in Hscale. subst bs. now exists g2.
Qed.

(** ** Missing input *)

Example missing_input_text :
  map nat_of_ascii (list_ascii_of_string missing_input) =
  [77; 105; 115; 115; 105; 110; 103; 32; 34; 105; 110; 112; 117; 116; 34; 32;
   102; 105; 101; 108; 100; 32; 105; 110; 32; 114; 101; 113; 117; 101; 115;
   116]%nat.
Proof. reflexivity. Qed.

(** On an object body the endpoints are the ones described above. *)
Lemma post_object E fields g :
  post_explain_local E (Ok (BodyObject fields)) g = explain_local E fields g /\
  post_explain_lime E (Ok (BodyObject fields)) g = explain_lime E fields g /\
  post_explain_counterfactual E (Ok (BodyObject fields)) g =
    explain_counterfactual E fields g.
Proof.
  unfold post_explain_local, post_explain_lime, post_explain_counterfactual,
    answer_body, read_body, explain_local, explain_local_try, explain_lime,
    explain_lime_try, explain_counterfactual, explain_counterfactual_try.
  cbn [lacks_input subscript_input and_then].
  destruct (model E), (scaler E), (feature_columns E); try (repeat split; fail).
  destruct (input fields) eqn:Hi; cbn [and_then]; rewrite ?Hi;
    destruct (negb (LIME_AVAILABLE E)); repeat split.
Qed.

(** The bodies on which the test ['input' not in data] holds, and those on
    which it raises. *)
Lemma lacks_input_cases data :
  (lacks_input data = Ok true <->
     (exists fields, data = BodyObject fields /\ input fields = None) \/
     (exists items, data = BodyArray items /\
                    existsb (is_string "input") items = false) \/
     (exists s, data = BodyString s /\ contains "input" s = false)) /\
  (forall e, lacks_input data = Raise e <->
     (data = BodyNull /\ e = not_iterable "NoneType") \/
     (exists b, data = BodyBool b /\ e = not_iterable "bool") \/
     (exists n, data = BodyInt n /\ e = not_iterable "int") \/
     (exists x, data = BodyFloat x /\ e = not_iterable "float")).
Proof.
  split; [|intros e]; split.
  - destruct data as [| | | |s|items|fields]; cbn [lacks_input]; try discriminate.
    + intros H. right. right. exists s. split; [reflexivity|].
      injection H as H'. now apply negb_true_iff in H'.
    + intros H. right. left. exists items. split; [reflexivity|].
      injection H as H'. now apply negb_true_iff in H'.
    + intros H. left. exists fields. split; [reflexivity|].
      now destruct (input fields).
  - intros [(fields & -> & H)|[(items & -> & H)|(s & -> & H)]];
      cbn [lacks_input].
    + now rewrite H.
    + now rewrite H.
    + now rewrite H.
  - destruct data as [|b|n|x| | |]; cbn [lacks_input]; try discriminate;
      intros H; inversion H; subst.
    + now left.
    + right. left. now exists b.
    + right. right. left. now exists n.
    + right. right. right. now exists x.
  - intros [(-> & ->)|[(b & -> & ->)|[(n & -> & ->)|(x & -> & ->)]]];
      reflexivity.
Qed.

(** C9, amended.  With model, scaler and schema loaded, a POST whose body
    passes the test ['input' not in data] (an object without the key, an
    array without the element "input", a string in which "input" does not
    occur) is answered with status 400 and the error
    [Missing "input" field in request] by /explain/local and /explain/cf,
    and by /explain/lime when lime is available.  A body on which the test
    raises (null, a boolean, a number) is answered with status 400 too, but
    the error is the text of that exception.  Nothing is drawn from the
    generator. *)
Theorem missing_input_rejected E data g m s cols :
  model E = Some m -> scaler E = Some s -> feature_columns E = Some cols ->
  (lacks_input data = Ok true ->
   let answer := {| body := ErrorBody missing_input; status := 400 |} in
   post_explain_local E (Ok data) g = (answer, g) /\
   post_explain_counterfactual E (Ok data) g = (answer, g) /\
   (LIME_AVAILABLE E = true ->
    post_explain_lime E (Ok data) g = (answer, g))) /\
  (forall e,
   lacks_input data = Raise e ->
   let answer := {| body := ErrorBody e; status := 400 |} in
   post_explain_local E (Ok data) g = (answer, g) /\
   post_explain_counterfactual E (Ok data) g = (answer, g) /\
   (LIME_AVAILABLE E = true ->
    post_explain_lime E (Ok data) g = (answer, g))).
Proof.
  intros Hm Hs Hc.
  unfold post_explain_local, post_explain_counterfactual, post_explain_lime,
    answer_body, read_body.
  rewrite Hm, Hs, Hc. cbn [and_then].
  split; [intros Ht|intros e Ht]; rewrite Ht; cbn [and_then];
    (split; [reflexivity|]); (split; [reflexivity|]); now intros ->.
Qed.

(** ** Runs of the concrete deployment *)

Lemma demo_background_run :
  generate_background_data demo 100 0%nat =
  (Ok (Some demo_background), 200%nat).
Proof. reflexivity. Qed.

Lemma demo_column_run : column demo_background 0 = Ok demo_column.
Proof. reflexivity. Qed.

Lemma demo_mean : mean demo_column = 42.5.
Proof.
  unfold mean. cbv [demo_column concat repeat app sum fold_right length].
  rewrite INR_IZR_INZ; simpl Z.of_nat. lra.
Qed.

Lemma demo_std : std demo_column = 17.5.
Proof.
  unfold std. rewrite demo_mean.
  apply sqrt_lem_1; try lra;
    unfold mean;
    cbv [demo_column concat repeat app sum fold_right length map];
    rewrite INR_IZR_INZ; simpl Z.of_nat; lra.
Qed.

Lemma demo_try_delta cands mult :
  try_delta demo_model [40] 40 "Age" 0 17.5 40 cands mult =
  if Rltb mult 0 then Ok (cands ++ [demo_candidate mult])%list else Ok cands.
Proof.
  unfold try_delta; simpl.
  destruct (Rltb mult 0) eqn:Hm.
  - apply Rltb_true in Hm.
    replace (Rltb (40 + mult * 17.5) 40) with true; [reflexivity|].
    symmetry. apply Rltb_true. lra.
  - apply Rltb_false in Hm.
    replace (Rltb (40 + mult * 17.5) 40) with false; [reflexivity|].
    symmetry. apply Rltb_false. lra.
Qed.

Lemma demo_search :
  fold_res (try_feature demo_model demo_background [[40]] 40)
    (feature_mapping ["Age"]) [] =
  Ok [demo_candidate (-0.5); demo_candidate (-1.0); demo_candidate (-2.0)].
Proof.
  change (feature_mapping ["Age"]) with [("Age", 0%nat)].
  cbn [fold_res and_then]. unfold try_feature at 1.
  cbn [get nth_error and_then length Nat.leb].
  rewrite demo_column_run. cbn [and_then]. rewrite demo_std.
  unfold delta_mults. cbn [fold_res and_then].
  repeat (rewrite demo_try_delta;
          (rewrite (proj2 (Rltb_true _ _)) by lra)
          || (rewrite (proj2 (Rltb_false _ _)) by lra);
          cbn [and_then app]).
  reflexivity.
Qed.

Lemma demo_precedes a b :
  a < b -> b < 0 -> cf_precedes (demo_candidate a) (demo_candidate b) = true.
Proof.
  intros Hab Hb. unfold cf_precedes, pair_lt, cf_key; simpl.
  destruct (Reqb _ _) eqn:He.
  - apply Reqb_true in He. lra.
  - apply Rltb_true. lra.
Qed.

Lemma demo_ranking :
  sort cf_precedes
    [demo_candidate (-0.5); demo_candidate (-1.0); demo_candidate (-2.0)] =
  demo_candidates.
Proof.
  cbn [sort fold_right insert].
  rewrite (demo_precedes (-2.0) (-1.0)) by lra. cbn [insert].
  rewrite (demo_precedes (-2.0) (-0.5)) by lra.
  rewrite (demo_precedes (-1.0) (-0.5)) by lra.
  reflexivity.
Qed.

(** For a 40-year-old the demo deployment predicts 40, and suggests to
    lower Age by 2, 1 and 0.5 standard deviations, the largest reduction
    first. *)
Lemma demo_counterfactual_run :
  explain_counterfactual demo demo_request 0%nat =
  (jsonify (CfBody 40 (40 * 0.8) demo_candidates), 200%nat).
Proof.
  unfold explain_counterfactual, explain_counterfactual_try.
  cbn [demo model scaler feature_columns input demo_request target
       preprocess_input demo_scaler transform demo_model predict].
  unfold bind at 1. cbn [lift map snd hd].
  unfold bind at 1. cbn [lift].
  unfold bind at 1. cbn [lift map hd].
  unfold bind at 1. cbn [lift get nth_error].
  unfold bind at 1. rewrite demo_background_run.
  unfold bind at 1. unfold lift. rewrite demo_search.
  unfold ret. rewrite demo_ranking. reflexivity.
Qed.

Lemma demo_candidate_values :
  map (fun c => (suggested_value c, reduction_percent c, distance c))
      demo_candidates =
  [(5, 87.5, 35); (22.5, 43.75, 17.5); (31.25, 21.875, 8.75)].
Proof.
  assert (forall d v, 0 <= v -> (40 + d - 40) * (40 + d - 40) = v * v ->
                      norm [40 + d - 40] = v) as Hnorm.
  { intros d v Hv Hsq. unfold norm; simpl.
    apply sqrt_lem_1; try lra. nra. }
  unfold demo_candidates, demo_candidate; simpl.
  repeat (f_equal; try lra); apply Hnorm; lra.
Qed.

Lemma demo_global_run now_load now_save :
  explain_global demo now_load now_save no_cache 0%nat =
  (jsonify (GlobalBody demo_explanation),
   {| cache := CacheDoc (StampNaive now_save) (Some demo_explanation);
      writable := true |}, 400%nat).
Proof. reflexivity. Qed.

Lemma demo_importance_value : demo_importance = [("Age", 42.5)].
Proof.
  unfold demo_importance. do 2 f_equal.
  cbv [demo_background demo_column concat repeat app map nth mean sum
       fold_right length].
  rewrite INR_IZR_INZ; simpl Z.of_nat.
  replace (Rabs 25) with 25 by (symmetry; apply Rabs_pos_eq; lra).
  replace (Rabs 60) with 60 by (symmetry; apply Rabs_pos_eq; lra).
  lra.
Qed.

(** ** The theorems at the concrete deployment *)

Lemma counterfactual_soundness_witness :
  body (fst (explain_counterfactual demo demo_request 0%nat)) =
    CfBody 40 (40 * 0.8) demo_candidates /\
  Forall (fun c =>
            new_prediction c < 40 /\
            reduction_percent c = (40 - new_prediction c) / 40 * 100)
         demo_candidates /\
  (length demo_candidates <= 5)%nat.
Proof.
  assert (body (fst (explain_counterfactual demo demo_request 0%nat)) =
          CfBody 40 (40 * 0.8) demo_candidates) as H
    by (rewrite demo_counterfactual_run; reflexivity).
  split; [exact H|].
  exact (counterfactual_soundness demo demo_request 0%nat 40 (40 * 0.8)
           demo_candidates H).
Defined.

Lemma distance_in_exact_arithmetic_witness :
  body (fst (explain_counterfactual demo demo_request 0%nat)) =
    CfBody 40 (40 * 0.8) demo_candidates /\
  Forall (fun c => distance c = Rabs (change c)) demo_candidates.
Proof.
  assert (body (fst (explain_counterfactual demo demo_request 0%nat)) =
          CfBody 40 (40 * 0.8) demo_candidates) as H
    by (rewrite demo_counterfactual_run; reflexivity).
  split; [exact H|].
  destruct (distance_in_exact_arithmetic demo demo_request 0%nat 40
              (40 * 0.8) demo_candidates H)
    as (s & input_data & processed & scaled & _ & _ & _ & _ & Hall).
  eapply Forall_impl; [|exact Hall]. intros c [_ Hd]. exact Hd.
Defined.


Lemma rankings_monotone_witness :
  left_by_service (cache no_cache) /\
  Sorted (fun a b => snd b <= snd a) demo_importance /\
  Sorted (fun a b =>
            reduction_percent b < reduction_percent a \/
            (reduction_percent b = reduction_percent a /\
             distance a <= distance b)) demo_candidates.
Proof.
  pose proof (rankings_monotone demo 0%Z 0%Z no_cache 0%nat demo_request
                cache_absent) as (Hglobal & _ & Hcf).
  split; [exact cache_absent|]. split.
  - apply (Hglobal demo_explanation).
    rewrite demo_global_run. reflexivity.
  - apply (Hcf 40 (40 * 0.8) demo_candidates).
    rewrite demo_counterfactual_run. reflexivity.
Defined.

Lemma cache_load_policy_witness :
  (days 10 - 0 > 7 * microseconds_per_day)%Z /\
  load_cached_global_explanation (days 10) (cache old_cache) = None /\
  load_cached_global_explanation (days 6) (cache old_cache)
    = Some old_explanation.
Proof.
  assert (days 10 - 0 > 7 * microseconds_per_day)%Z as Hold
    by (unfold days, microseconds_per_day; lia).
  split; [exact Hold|]. split.
  - destruct (cache_load_policy (days 10)) as (_ & _ & _ & _ & Hexpired & _).
    exact (Hexpired 0%Z (Some old_explanation) Hold).
  - destruct (cache_load_policy (days 6)) as (Hhit & _).
    apply Hhit. exists (StampNaive 0), 0%Z. repeat split.
    unfold days, microseconds_per_day. lia.
Defined.

Lemma global_repeat_within_ttl_witness :
  let run1 := explain_global demo 0 (days 1) no_cache 0%nat in
  body (fst (fst run1)) = GlobalBody demo_explanation /\
  (days 8 - days 1 <= 7 * microseconds_per_day)%Z /\
  exists e2,
    explain_global demo (days 8) (days 8) (snd (fst run1)) (snd run1) =
      (jsonify (GlobalBody e2), snd (fst run1), snd run1) /\
    feature_importance e2 = demo_importance /\
    cached e2 = true.
Proof.
  cbv zeta.
  assert (body (fst (fst (explain_global demo 0 (days 1) no_cache 0%nat))) =
          GlobalBody demo_explanation) as H
    by (rewrite demo_global_run; reflexivity).
  assert (days 8 - days 1 <= 7 * microseconds_per_day)%Z as Hfresh
    by (unfold days, microseconds_per_day; lia).
  split; [exact H|]. split; [exact Hfresh|].
  destruct (global_repeat_within_ttl demo 0%Z (days 1) (days 8) (days 8)
              no_cache 0%nat demo_explanation H) as [_ Hsaved].
  destruct (Hsaved eq_refl eq_refl) as [_ Hagain].
  exact (Hagain Hfresh).
Defined.


Lemma background_unavailable_witness :
  generate_background_data (without_schema demo) 100 0%nat = (Ok None, 0%nat) /\
  fst (generate_background_data (without_scaler demo) 1 0%nat) <> Ok None.
Proof.
  split.
  - apply (proj1 (background_unavailable (without_schema demo) 100 0%nat)).
    left. reflexivity.
  - apply (proj2 (background_unavailable (without_scaler demo) 1 0%nat)
             "Age" [] eq_refl eq_refl).
Defined.

Lemma background_shape_witness :
  exists bg,
    fst (generate_background_data demo 100 0%nat) = Ok (Some bg) /\
    Z.of_nat (length bg) = 100%Z /\
    Forall (fun r => length r = 1%nat) bg.
Proof.
  assert (forall s r, preprocess_input demo s = Ok r -> length r = 1%nat)
    as Hal by (intros s r H; inversion H; reflexivity).
  assert (forall s m m',
             scaler demo = Some s -> transform s m = Ok m' ->
             length m' = length m /\
             (Forall (fun r => length r = 1%nat) m ->
              Forall (fun r => length r = 1%nat) m')) as Hshape.
  { intros s m m' Hs Ht. inversion Hs; subst. simpl in Ht.
    inversion Ht; subst. auto. }
  destruct (background_shape demo ["Age"] 100 0%nat eq_refl Hal Hshape)
    as (Hrows & _ & Htotal).
  destruct Htotal as (bg & Hbg).
  - lia.
  - exists "Age". split; [now left|]. left. now left.
  - intros s. eexists. reflexivity.
  - intros s m Hs. inversion Hs; subst. eexists. reflexivity.
  - exists bg. split; [exact Hbg|]. exact (proj2 (Hrows bg Hbg)).
Defined.

Lemma missing_input_rejected_witness :
  lacks_input (BodyObject empty_request) = Ok true /\
  post_explain_local demo (Ok (BodyObject empty_request)) 0%nat =
    ({| body := ErrorBody missing_input; status := 400 |}, 0%nat) /\
  post_explain_counterfactual demo (Ok (BodyObject empty_request)) 0%nat =
    ({| body := ErrorBody missing_input; status := 400 |}, 0%nat) /\
  post_explain_lime demo (Ok (BodyObject empty_request)) 0%nat =
    ({| body := ErrorBody missing_input; status := 400 |}, 0%nat).
Proof.
  destruct (missing_input_rejected demo (BodyObject empty_request) 0%nat
              demo_model demo_scaler ["Age"] eq_refl eq_refl eq_refl)
    as (Hmissing & _).
  destruct (Hmissing eq_refl) as (Hlocal & Hcf & Hlime).
  split; [reflexivity|]. split; [exact Hlocal|]. split; [exact Hcf|].
  exact (Hlime eq_refl).
Defined.

(** ** Where the specification and the code part *)

(** C2.  Without a scaler the sampler returns the unscaled samples, not
    "unavailable". *)
Lemma background_unavailable_counterexample :
  scaler (without_scaler demo) = None /\
  generate_background_data (without_scaler demo) 1 0%nat =
    (Ok (Some [[60]]), 2%nat) /\
  fst (generate_background_data (without_scaler demo) 1 0%nat) <> Ok None.
Proof.
  split; [reflexivity|]. split; [reflexivity|]. discriminate.
Qed.

(** C8.  For n = 0 the sampler raises the IndexError of [df.iloc[0]]: it
    returns neither "unavailable" nor a matrix.  It raises the same for
    n = 100 when the schema has no feature the sampler knows. *)
Lemma background_shape_counterexample :
  generate_background_data demo 0 0%nat =
    (Raise "single positional indexer is out-of-bounds", 0%nat) /\
  generate_background_data (with_unknown_schema demo) 100 0%nat =
    (Raise "single positional indexer is out-of-bounds", 0%nat) /\
  ~ (fst (generate_background_data demo 0 0%nat) = Ok None \/
     exists bg,
       fst (generate_background_data demo 0 0%nat) = Ok (Some bg) /\
       Z.of_nat (length bg) = 0%Z /\
       Forall (fun r => length r = 1%nat) bg).
Proof.
  split; [reflexivity|]. split; [reflexivity|].
  intros [H|(bg & H & _)]; discriminate H.
Qed.

(** C7.  A first call served from a cache entry that is six days old, then
    a second call two days later with the file untouched: both succeed, but
    the second finds the entry expired, computes the explanation anew and
    answers cached=false with another feature_importance. *)
Lemma global_twice_counterexample :
  let run1 := explain_global demo (days 6) (days 6) old_cache 0%nat in
  let run2 :=
    explain_global demo (days 8) (days 8) (snd (fst run1)) (snd run1) in
  (0 <= days 8 - days 6 <= 7 * microseconds_per_day)%Z /\
  snd (fst run1) = old_cache /\
  fst (fst run1) = jsonify (GlobalBody (mark_cached old_explanation)) /\
  fst (fst run2) = jsonify (GlobalBody demo_explanation) /\
  cached demo_explanation = false /\
  feature_importance demo_explanation
    <> feature_importance (mark_cached old_explanation).
Proof.
  cbv zeta.
  assert (explain_global demo (days 6) (days 6) old_cache 0%nat =
          (jsonify (GlobalBody (mark_cached old_explanation)),
           old_cache, 0%nat)) as H1 by reflexivity.
  rewrite H1. cbn [fst snd].
  split; [unfold days, microseconds_per_day; lia|].
  split; [reflexivity|]. split; [reflexivity|].
  split; [reflexivity|]. split; [reflexivity|].
  cbn [feature_importance demo_explanation mark_cached old_explanation].
  rewrite demo_importance_value. intros H. inversion H. lra.
Qed.

(** C9.  With no model loaded the three endpoints answer 500 before they
    look at the body, and so does /explain/lime when lime is missing. *)
Lemma missing_input_counterexample :
  lacks_input (BodyObject empty_request) = Ok true /\
  fst (post_explain_local (without_model demo)
         (Ok (BodyObject empty_request)) 0%nat) =
    error_response "Model not loaded" 500 /\
  fst (post_explain_lime (without_model demo)
         (Ok (BodyObject empty_request)) 0%nat) =
    error_response "Model not loaded" 500 /\
  fst (post_explain_counterfactual (without_model demo)
         (Ok (BodyObject empty_request)) 0%nat) =
    error_response "Model not loaded" 500 /\
  fst (post_explain_lime (without_lime demo)
         (Ok (BodyObject empty_request)) 0%nat) =
    error_response "LIME library not available" 500 /\
  fst (post_explain_local demo (Ok BodyNull) 0%nat) =
    error_response "argument of type 'NoneType' is not iterable" 400 /\
  fst (post_explain_local demo (Ok (BodyInt 7)) 0%nat) =
    error_response "argument of type 'int' is not iterable" 400 /\
  "argument of type 'NoneType' is not iterable" <> missing_input /\
  "argument of type 'int' is not iterable" <> missing_input.
Proof. repeat split; discriminate. Qed.


(** * Further properties of the code *)

(** ** The cache file *)



(** X2.  Expiry is final: a cache file that gives no explanation at some
    time gives none at any later time. *)
Theorem cache_miss_is_permanent now later f :
  (now <= later)%Z ->
  load_cached_global_explanation now f = None ->
  load_cached_global_explanation later f = None.
Proof.
  intros Hle Hmiss.
  destruct (load_cached_global_explanation later f) as [e|] eqn:Hl;
    [|reflexivity].
  apply load_some in Hl as (ts & t & Hf & Hts & Hfresh).
  assert (load_cached_global_explanation now f = Some e) as Hhit.
  { apply load_some. exists ts, t. repeat split; auto. lia. }
  congruence.
Qed.

Lemma cache_miss_is_permanent_witness :
  (days 8 <= days 9)%Z /\
  load_cached_global_explanation (days 8) (cache old_cache) = None /\
  load_cached_global_explanation (days 9) (cache old_cache) = None.
Proof.
  assert (days 8 <= days 9)%Z as H by (unfold days, microseconds_per_day; lia).
  assert (load_cached_global_explanation (days 8) (cache old_cache) = None)
    as Hmiss by reflexivity.
  split; [exact H|]. split; [exact Hmiss|].
  exact (cache_miss_is_permanent (days 8) (days 9) (cache old_cache) H Hmiss).
Defined.

(** ** The explainer and the global endpoint *)

(** X3.  [get_shap_explainer] gives no explainer, and draws nothing, when
    shap is missing, the model or the scaler is not loaded, or the model
    has no coefficients.  An explainer it gives was built by the
    constructor from the loaded model and a background of 100 samples.
    What it raises was raised by the background sampler: an exception of
    the constructor is swallowed. *)
Theorem shap_explainer_availability E g :
  (SHAP_AVAILABLE E = false \/ model E = None \/ scaler E = None \/
   (exists m, model E = Some m /\ has_coef m = false) ->
   get_shap_explainer E g = (Ok None, g)) /\
  (forall ex g',
      get_shap_explainer E g = (Ok (Some ex), g') ->
      SHAP_AVAILABLE E = true /\ scaler E <> None /\
      exists m bg,
        model E = Some m /\ has_coef m = true /\
        generate_background_data E 100 g = (Ok (Some bg), g') /\
        LinearExplainer E m bg = Ok ex) /\
  (forall msg g',
      get_shap_explainer E g = (Raise msg, g') ->
      generate_background_data E 100 g = (Raise msg, g')).
Proof.
  unfold get_shap_explainer, bind, ret. repeat split.
  - intros [Hs|[Hm|[Hs|(m & Hm & Hc)]]].
    + now rewrite Hs.
    + rewrite Hm. now destruct (negb (SHAP_AVAILABLE E)).
    + rewrite Hs. destruct (negb (SHAP_AVAILABLE E)); [reflexivity|].
      now destruct (model E).
    + rewrite Hm, Hc. destruct (negb (SHAP_AVAILABLE E)); [reflexivity|].
      now destruct (scaler E).
  - revert H. destruct (SHAP_AVAILABLE E); [reflexivity|discriminate].
  - revert H. destruct (negb (SHAP_AVAILABLE E)); [discriminate|].
    destruct (model E); [|discriminate].
    destruct (scaler E); discriminate.
  - revert H. destruct (negb (SHAP_AVAILABLE E)); [discriminate|].
    destruct (model E) as [m|]; [|discriminate].
    destruct (scaler E); [|discriminate].
    destruct (has_coef m) eqn:Hc; [|discriminate].
    destruct (generate_background_data E 100 g) as [[[bg|]|] g1];
      try discriminate.
    destruct (LinearExplainer E m bg) as [ex'|] eqn:Hex; [|discriminate].
    intros H; inversion H; subst. exists m, bg. auto.
  - intros msg g'. destruct (negb (SHAP_AVAILABLE E)); [discriminate|].
    destruct (model E) as [m|]; [|discriminate].
    destruct (scaler E); [|discriminate].
    destruct (has_coef m); [|discriminate].
    destruct (generate_background_data E 100 g) as [[[bg|]|] g1];
      try discriminate.
    + destruct (LinearExplainer E m bg); discriminate.
    + intros H; inversion H; subst. reflexivity.
Qed.

Lemma shap_explainer_availability_witness :
  get_shap_explainer (with_opaque_model demo) 0%nat = (Ok None, 0%nat) /\
  get_shap_explainer demo 0%nat = (Ok (Some demo_explainer), 200%nat) /\
  LinearExplainer demo demo_model demo_background = Ok demo_explainer.
Proof.
  destruct (shap_explainer_availability (with_opaque_model demo) 0%nat)
    as (Hnone & _ & _).
  assert (get_shap_explainer demo 0%nat = (Ok (Some demo_explainer), 200%nat))
    as Hrun by reflexivity.
  destruct (shap_explainer_availability demo 0%nat) as (_ & Hsome & _).
  split.
  - apply Hnone. do 3 right.
    exists {| predict := predict demo_model; has_coef := false |}.
    split; reflexivity.
  - split; [exact Hrun|].
    destruct (Hsome demo_explainer 200%nat Hrun)
      as (_ & _ & m & bg & Hm & _ & Hbg & Hex).
    reflexivity.
Defined.



(** X6.  With everything loaded and no valid cache entry, GET
    /explain/global answers 500 "SHAP library not available" when shap is
    missing and 500 "Failed to create SHAP explainer" when the model has
    no coefficients; in both cases nothing is drawn and nothing is
    written. *)
Theorem global_attribution_unavailable E now_load now_save fs g m s cols :
  model E = Some m -> scaler E = Some s -> feature_columns E = Some cols ->
  load_cached_global_explanation now_load (cache fs) = None ->
  (SHAP_AVAILABLE E = false ->
   explain_global E now_load now_save fs g =
   (error_response "SHAP library not available" 500, fs, g)) /\
  (SHAP_AVAILABLE E = true -> has_coef m = false ->
   explain_global E now_load now_save fs g =
   (error_response "Failed to create SHAP explainer" 500, fs, g)).
Proof.
  intros Hm Hs Hc Hl. unfold explain_global, explain_global_try.
  rewrite Hm, Hs, Hc, Hl. split.
  - now intros ->.
  - intros Hshap Hcoef. rewrite Hshap. cbn [negb]. unfold bind.
    unfold get_shap_explainer. rewrite Hshap, Hm, Hs, Hcoef. reflexivity.
Qed.

Lemma global_attribution_unavailable_witness :
  load_cached_global_explanation (days 8) (cache old_cache) = None /\
  explain_global (without_shap demo) (days 8) (days 8) old_cache 0%nat =
    (error_response "SHAP library not available" 500, old_cache, 0%nat) /\
  explain_global (with_opaque_model demo) (days 8) (days 8) old_cache 0%nat =
    (error_response "Failed to create SHAP explainer" 500, old_cache, 0%nat).
Proof.
  split; [reflexivity|]. split.
  - exact (proj1 (global_attribution_unavailable (without_shap demo)
                    (days 8) (days 8) old_cache 0%nat
                    {| predict := predict demo_model; has_coef := false |}
                    demo_scaler ["Age"] eq_refl eq_refl eq_refl eq_refl)
                 eq_refl).
  - exact (proj2 (global_attribution_unavailable (with_opaque_model demo)
                    (days 8) (days 8) old_cache 0%nat
                    {| predict := predict demo_model; has_coef := false |}
                    demo_scaler ["Age"] eq_refl eq_refl eq_refl eq_refl)
                 eq_refl eq_refl).
Defined.

(** ** Status codes and error answers *)

Lemma global_status E now_load now_save fs g :
  let r := fst (fst (explain_global E now_load now_save fs g)) in
  (status r = 200%Z /\ is_error (body r) = false) \/
  (status r = 500%Z /\ is_error (body r) = true).
Proof.
  cbv zeta. unfold explain_global, explain_global_try.
  destruct (model E) as [m|]; [|now right].
  destruct (scaler E) as [s|]; [|now right].
  destruct (feature_columns E) as [cols|]; [|now right].
  destruct (load_cached_global_explanation now_load (cache fs)) as [e0|];
    [now left|].
  destruct (negb (SHAP_AVAILABLE E)); [now right|].
  unfold bind, ret, lift.
  destruct (get_shap_explainer E g) as [[[ex|]|] g1];
    [|now right|now right].
  destruct (generate_background_data E 100 g1) as [[[bg|]|] g2];
    [|now right|now right].
  destruct (shap_values ex bg) as [values|]; [|now right].
  destruct (for_each _ _) as [importance|]; [now left|now right].
Qed.

Lemma local_status E data g :
  let r := fst (explain_local E data g) in
  (status r = 200%Z /\ is_error (body r) = false) \/
  ((status r = 400%Z \/ status r = 500%Z) /\ is_error (body r) = true).
Proof.
  cbv zeta. unfold explain_local, explain_local_try. unfold bind, ret, lift.
  destruct (model E) as [m|]; [|right; auto].
  destruct (scaler E) as [s|]; [|right; auto].
  destruct (feature_columns E) as [cols|]; [|right; auto].
  destruct (input data) as [input_data|]; [|right; auto].
  destruct (preprocess_input E input_data) as [processed|]; [|right; auto].
  destruct (transform s [processed]) as [scaled|]; [|right; auto].
  destruct (predict m scaled) as [predictions|]; [|right; auto].
  destruct (get predictions 0) as [prediction|]; [|right; auto].
  destruct (negb (SHAP_AVAILABLE E)); [right; auto|].
  destruct (get_shap_explainer E g) as [[[ex|]|] g1];
    [|right; auto|right; auto].
  destruct (get scaled 0) as [x|]; [|right; auto].
  destruct (shap_values_1d ex x) as [values|]; [|right; auto].
  destruct (for_each _ _) as [listed|]; [left; auto|right; auto].
Qed.

Lemma lime_status E data g :
  let r := fst (explain_lime E data g) in
  (status r = 200%Z /\ is_error (body r) = false) \/
  ((status r = 400%Z \/ status r = 500%Z) /\ is_error (body r) = true).
Proof.
  cbv zeta. unfold explain_lime, explain_lime_try. unfold bind, ret, lift.
  destruct (model E) as [m|]; [|right; auto].
  destruct (scaler E) as [s|]; [|right; auto].
  destruct (feature_columns E) as [cols|]; [|right; auto].
  destruct (negb (LIME_AVAILABLE E)); [right; auto|].
  destruct (input data) as [input_data|]; [|right; auto].
  destruct (preprocess_input E input_data) as [processed|]; [|right; auto].
  destruct (transform s [processed]) as [scaled|]; [|right; auto].
  destruct (predict m scaled) as [predictions|]; [|right; auto].
  destruct (get predictions 0) as [prediction|]; [|right; auto].
  destruct (generate_background_data E 100 g) as [[[bg|]|] g1];
    [|right; auto|right; auto].
  destruct (LimeTabularExplainer E bg cols) as [lime|]; [|right; auto].
  destruct (get scaled 0) as [x|]; [|right; auto].
  destruct (explain_instance lime x m 10 g1) as [[explained|] g2];
    [left; auto|right; auto].
Qed.

Lemma counterfactual_status E data g :
  let r := fst (explain_counterfactual E data g) in
  (status r = 200%Z /\ is_error (body r) = false) \/
  ((status r = 400%Z \/ status r = 500%Z) /\ is_error (body r) = true).
Proof.
  cbv zeta. unfold explain_counterfactual, explain_counterfactual_try.
  unfold bind, ret, lift.
  destruct (model E) as [m|]; [|right; auto].
  destruct (scaler E) as [s|]; [|right; auto].
  destruct (feature_columns E) as [cols|]; [|right; auto].
  destruct (input data) as [input_data|]; [|right; auto].
  destruct (preprocess_input E input_data) as [processed|]; [|right; auto].
  destruct (transform s [processed]) as [scaled|]; [|right; auto].
  destruct (predict m scaled) as [predictions|]; [|right; auto].
  destruct (get predictions 0) as [o|]; [|right; auto].
  destruct (generate_background_data E 100 g) as [[[bg|]|] g1];
    [|right; auto|right; auto].
  destruct (fold_res _ _ _) as [found|]; [left; auto|right; auto].
Qed.

(** X7.  Every answer of the four endpoints is either a success with status
    200 or the error object with an error status: 500 for GET
    /explain/global, 400 or 500 for the three POST endpoints.  No answer
    has status 200 with an error body, or an error status with a success
    body. *)
Theorem answers_are_success_or_error E now_load now_save fs data g :
  let global := fst (fst (explain_global E now_load now_save fs g)) in
  let others :=
    [ fst (explain_local E data g); fst (explain_lime E data g);
      fst (explain_counterfactual E data g) ] in
  ((status global = 200%Z /\ is_error (body global) = false) \/
   (status global = 500%Z /\ is_error (body global) = true)) /\
  Forall (fun r =>
            (status r = 200%Z /\ is_error (body r) = false) \/
            ((status r = 400%Z \/ status r = 500%Z) /\
             is_error (body r) = true)) others.
Proof.
  cbv zeta. split; [apply global_status|].
  constructor; [apply local_status|].
  constructor; [apply lime_status|].
  constructor; [apply counterfactual_status|constructor].
Qed.

(** X8.  While the model, the scaler or the schema is not loaded, every
    endpoint answers 500 "Model not loaded", whatever the request, the
    cache file and the libraries; nothing is drawn and nothing is
    written. *)
Theorem unloaded_deployment_answers_500 E now_load now_save fs data g :
  model E = None \/ scaler E = None \/ feature_columns E = None ->
  let answer := error_response "Model not loaded" 500 in
  explain_global E now_load now_save fs g = (answer, fs, g) /\
  explain_local E data g = (answer, g) /\
  explain_lime E data g = (answer, g) /\
  explain_counterfactual E data g = (answer, g).
Proof.
  intros H. cbv zeta.
  unfold explain_global, explain_global_try, explain_local, explain_local_try,
    explain_lime, explain_lime_try, explain_counterfactual,
    explain_counterfactual_try.
  destruct H as [-> | [-> | ->]].
  - now repeat split.
  - destruct (model E); now repeat split.
  - destruct (model E); destruct (scaler E); now repeat split.
Qed.

Lemma unloaded_deployment_answers_500_witness :
  model (without_model demo) = None /\
  explain_global (without_model demo) 0 0 old_cache 0%nat =
    (error_response "Model not loaded" 500, old_cache, 0%nat) /\
  explain_counterfactual (without_model demo) demo_request 0%nat =
    (error_response "Model not loaded" 500, 0%nat).
Proof.
  destruct (unloaded_deployment_answers_500 (without_model demo) 0%Z 0%Z
              old_cache demo_request 0%nat (or_introl eq_refl))
    as (Hglobal & _ & _ & Hcf).
  split; [reflexivity|]. split; [exact Hglobal|exact Hcf].
Defined.

(** X9.  When the preprocessor rejects the input of a POST request, the
    three endpoints answer 400 with the message of the exception, before
    anything is drawn; /explain/lime does so when lime is available. *)
Theorem rejected_input_is_400 E data g m s cols input_data msg :
  model E = Some m -> scaler E = Some s -> feature_columns E = Some cols ->
  input data = Some input_data ->
  preprocess_input E input_data = Raise msg ->
  explain_local E data g = (error_response msg 400, g) /\
  explain_counterfactual E data g = (error_response msg 400, g) /\
  (LIME_AVAILABLE E = true ->
   explain_lime E data g = (error_response msg 400, g)).
Proof.
  intros Hm Hs Hc Hi Hp.
  unfold explain_local, explain_local_try, explain_counterfactual,
    explain_counterfactual_try, explain_lime, explain_lime_try.
  rewrite Hm, Hs, Hc, Hi. unfold bind, lift. rewrite Hp.
  repeat split. intros ->. reflexivity.
Qed.

Lemma rejected_input_is_400_witness :
  preprocess_input (with_failing_preprocessor demo "could not convert")
    [("Age", 40)] = Raise "could not convert" /\
  explain_counterfactual (with_failing_preprocessor demo "could not convert")
    demo_request 0%nat = (error_response "could not convert" 400, 0%nat) /\
  explain_lime (with_failing_preprocessor demo "could not convert")
    demo_request 0%nat = (error_response "could not convert" 400, 0%nat).
Proof.
  destruct (rejected_input_is_400
              (with_failing_preprocessor demo "could not convert")
              demo_request 0%nat demo_model demo_scaler ["Age"] [("Age", 40)]
              "could not convert" eq_refl eq_refl eq_refl eq_refl eq_refl)
    as (_ & Hcf & Hlime).
  split; [reflexivity|]. split; [exact Hcf|exact (Hlime eq_refl)].
Defined.

(** X10.  POST /explain/local predicts before it looks for shap: for an
    input that is preprocessed, scaled and predicted, it answers 500 "SHAP
    library not available" when shap is missing and 500 "Failed to create
    SHAP explainer" when the model has no coefficients, not the 400 of its
    exception boundary, and draws nothing. *)
Theorem local_attribution_unavailable E data g m s cols input_data processed
    scaled predictions prediction :
  model E = Some m -> scaler E = Some s -> feature_columns E = Some cols ->
  input data = Some input_data ->
  preprocess_input E input_data = Ok processed ->
  transform s [processed] = Ok scaled ->
  predict m scaled = Ok predictions ->
  get predictions 0 = Ok prediction ->
  (SHAP_AVAILABLE E = false ->
   explain_local E data g =
   (error_response "SHAP library not available" 500, g)) /\
  (SHAP_AVAILABLE E = true -> has_coef m = false ->
   explain_local E data g =
   (error_response "Failed to create SHAP explainer" 500, g)).
Proof.
  intros Hm Hs Hc Hi Hp Ht Hpred Hget.
  unfold explain_local, explain_local_try.
  rewrite Hm, Hs, Hc, Hi. unfold bind, lift.
  rewrite Hp, Ht, Hpred, Hget. split.
  - now intros ->.
  - intros Hshap Hcoef. rewrite Hshap. cbn [negb].
    unfold get_shap_explainer. rewrite Hshap, Hm, Hs, Hcoef. reflexivity.
Qed.

Lemma local_attribution_unavailable_witness :
  has_coef {| predict := predict demo_model; has_coef := false |} = false /\
  explain_local (with_opaque_model demo) demo_request 0%nat =
    (error_response "Failed to create SHAP explainer" 500, 0%nat).
Proof.
  split; [reflexivity|].
  exact (proj2 (local_attribution_unavailable (with_opaque_model demo)
                  demo_request 0%nat
                  {| predict := predict demo_model; has_coef := false |}
                  demo_scaler ["Age"] [("Age", 40)] [40] [[40]] [40] 40
                  eq_refl eq_refl eq_refl eq_refl eq_refl eq_refl eq_refl
                  eq_refl)
               eq_refl eq_refl).
Defined.

(** ** What the attribution endpoints list *)

Lemma for_each_Forall2 {A B} (f : A -> res B) (l : list A) :
  forall r, for_each f l = Ok r -> Forall2 (fun a b => f a = Ok b) l r.
Proof.
  induction l as [|a l IH]; simpl; intros r H.
  - inversion H; subst. constructor.
  - unfold and_then in H. destruct (f a) as [b|] eqn:Hb; [|discriminate].
    destruct (for_each f l) as [bs|]; [|discriminate].
    inversion H; subst. constructor; auto.
Qed.

Lemma Forall2_In_right {A B} (R : A -> B -> Prop) (l : list A) (r : list B) :
  Forall2 R l r -> forall b, In b r -> exists a, In a l /\ R a b.
Proof.
  induction 1 as [|a b l r Hab _ IH]; intros b' Hin; [now elim Hin|].
  destruct Hin as [<-|Hin].
  - exists a. split; [now left|assumption].
  - destruct (IH b' Hin) as (a' & Ha & Hr). exists a'. split; [now right|auto].
Qed.

(** Entries read off the positions of a list, in order, name the list. *)
Lemma names_of_positions {B} (name : B -> string) (suffix : list string) :
  forall prefix r,
    Forall2 (fun i b => nth_error (prefix ++ suffix)%list i = Some (name b))
            (seq (length prefix) (length suffix)) r ->
    map name r = suffix.
Proof.
  induction suffix as [|c suffix IH]; intros prefix r H; simpl in H.
  - inversion H; subst. reflexivity.
  - inversion H as [|i b rest bs Hb Hrest]; subst. simpl.
    rewrite nth_error_app2 in Hb by lia.
    rewrite Nat.sub_diag in Hb. simpl in Hb. inversion Hb; subst.
    f_equal. apply (IH (prefix ++ [name b])%list).
    rewrite length_app, Nat.add_1_r. rewrite <- app_assoc. exact Hrest.
Qed.

Lemma listed_names {B} (name : B -> string) (f : nat -> res B)
    (cols : list string) (r : list B) :
  (forall i b, f i = Ok b -> nth_error cols i = Some (name b)) ->
  for_each f (seq 0 (length cols)) = Ok r ->
  map name r = cols.
Proof.
  intros Hf H. apply for_each_Forall2 in H.
  apply (names_of_positions name cols []). simpl.
  eapply Forall2_impl; [|exact H]. intros i b Hb. now apply Hf.
Qed.

(** What a successful answer of the local endpoint went through. *)
Lemma local_listing E data g p cs txt :
  body (fst (explain_local E data g)) = LocalBody p cs txt ->
  exists s cols input_data processed scaled x ex g1 values listed,
    scaler E = Some s /\
    feature_columns E = Some cols /\
    input data = Some input_data /\
    preprocess_input E input_data = Ok processed /\
    transform s [processed] = Ok scaled /\
    get scaled 0 = Ok x /\
    get_shap_explainer E g = (Ok (Some ex), g1) /\
    shap_values_1d ex x = Ok values /\
    for_each
      (fun i =>
         name <-- get cols i ;;
         v <-- get values i ;;
         xi <-- get x i ;;
         Ok {| c_feature := name; c_shap := v; c_value := xi |})
      (seq 0 (length cols)) = Ok listed /\
    cs = sort (key_desc (fun c => Rabs (c_shap c))) listed.
Proof.
  unfold explain_local, explain_local_try. unfold bind, ret, lift.
  destruct (model E) as [m|]; [|discriminate].
  destruct (scaler E) as [s|]; [|discriminate].
  destruct (feature_columns E) as [cols|]; [|discriminate].
  destruct (input data) as [input_data|]; [|discriminate].
  destruct (preprocess_input E input_data) as [processed|] eqn:Hp;
    [|discriminate].
  destruct (transform s [processed]) as [scaled|] eqn:Ht; [|discriminate].
  destruct (predict m scaled) as [predictions|]; [|discriminate].
  destruct (get predictions 0) as [prediction|]; [|discriminate].
  destruct (negb (SHAP_AVAILABLE E)); [discriminate|].
  destruct (get_shap_explainer E g) as [[[ex|]|] g1] eqn:Hex;
    [|discriminate|discriminate].
  destruct (get scaled 0) as [x|] eqn:Hx; [|discriminate].
  destruct (shap_values_1d ex x) as [values|] eqn:Hv; [|discriminate].
  destruct (for_each _ _) as [listed|] eqn:Hl; [|discriminate].
  simpl. intros H. inversion H; subst.
  exists s, cols, input_data, processed, scaled, x, ex, g1, values, listed.
  repeat split; auto.
Qed.

(** X11.  The contributions of a successful POST /explain/local list every
    feature of the schema exactly once, whatever the order the ranking puts
    them in.  They are a rearrangement of the listing by position: the
    entry of position [i] carries the name of the schema at [i], the
    attribution that the explainer gives at [i] for the scaled input row,
    and the coordinate [i] of that scaled input row. *)
Theorem local_contributions_cover_schema E data g p cs txt cols :
  feature_columns E = Some cols ->
  body (fst (explain_local E data g)) = LocalBody p cs txt ->
  Permutation (map c_feature cs) cols /\
  length cs = length cols /\
  exists s input_data processed scaled x ex g1 values listed,
    scaler E = Some s /\
    input data = Some input_data /\
    preprocess_input E input_data = Ok processed /\
    transform s [processed] = Ok scaled /\
    get scaled 0 = Ok x /\
    get_shap_explainer E g = (Ok (Some ex), g1) /\
    shap_values_1d ex x = Ok values /\
    Forall2 (fun i c =>
               nth_error cols i = Some (c_feature c) /\
               nth_error values i = Some (c_shap c) /\
               nth_error x i = Some (c_value c))
            (seq 0 (length cols)) listed /\
    Permutation listed cs.
Proof.
  intros Hc H.
  destruct (local_listing _ _ _ _ _ _ H)
    as (s & cols' & input_data & processed & scaled & x & ex & g1 & values
        & listed & Hs & Hc' & Hi & Hp & Ht & Hx & Hex & Hv & Hl & ->).
  rewrite Hc in Hc'. inversion Hc'; subst cols'.
  assert (Forall2
            (fun i c =>
               nth_error cols i = Some (c_feature c) /\
               nth_error values i = Some (c_shap c) /\
               nth_error x i = Some (c_value c))
            (seq 0 (length cols)) listed) as Hpos.
  { eapply Forall2_impl; [|exact (for_each_Forall2 _ _ _ Hl)].
    intros i c Hget. unfold and_then in Hget.
    destruct (get cols i) as [name|] eqn:Hn; [|discriminate].
    destruct (get values i) as [v|] eqn:Hval; [|discriminate].
    destruct (get x i) as [xi|] eqn:Hxi; [|discriminate].
    inversion Hget; subst. simpl.
    now rewrite <- !get_nth_error. }
  assert (map c_feature listed = cols) as Hnames.
  { apply (names_of_positions c_feature cols []). simpl.
    eapply Forall2_impl; [|exact Hpos]. now intros i c [Hn _]. }
  pose proof (sort_perm (key_desc (fun c => Rabs (c_shap c))) listed) as Hperm.
  split; [|split].
  - rewrite <- Hnames. apply Permutation_map, Permutation_sym, Hperm.
  - rewrite <- (Permutation_length Hperm), <- Hnames. now rewrite length_map.
  - exists s, input_data, processed, scaled, x, ex, g1, values, listed.
    repeat (split; [assumption|]). exact Hperm.
Qed.

Lemma pair_local_run :
  exists txt,
    explain_local demo_pair pair_request 0%nat =
    (jsonify (LocalBody 40 pair_contributions txt), 400%nat).
Proof.
  eexists.
  unfold explain_local, explain_local_try.
  cbn [demo_pair model scaler feature_columns input pair_request target
       preprocess_input demo_scaler transform demo_model predict
       SHAP_AVAILABLE negb].
  unfold bind at 1. cbn [lift map snd hd].
  unfold bind at 1. cbn [lift].
  unfold bind at 1. cbn [lift map hd].
  unfold bind at 1. cbn [lift get nth_error].
  unfold bind at 1.
  replace (get_shap_explainer demo_pair 0%nat)
    with (Ok (Some weighted_explainer), 400%nat) by reflexivity.
  unfold bind, lift, ret.
  cbn [get nth_error weighted_explainer shap_values_1d combine map
       for_each seq length and_then Nat.add].
  unfold sort. cbn [fold_right insert].
  unfold key_desc at 1. cbn [c_shap].
  replace (Rltb (Rabs (0.1 * 40)) (Rabs (5 * 2))) with true
    by (symmetry; apply Rltb_true;
        rewrite !Rabs_right by lra; lra).
  cbn [insert]. reflexivity.
Qed.

Lemma local_contributions_cover_schema_witness :
  exists txt,
    feature_columns demo_pair = Some ["Age"; "Son"] /\
    body (fst (explain_local demo_pair pair_request 0%nat)) =
      LocalBody 40 pair_contributions txt /\
    Permutation (map c_feature pair_contributions) ["Age"; "Son"] /\
    length pair_contributions = 2%nat /\
    exists x values listed,
      transform demo_scaler [[40; 2]] = Ok [x] /\
      shap_values_1d weighted_explainer x = Ok values /\
      Forall2 (fun i c =>
                 nth_error ["Age"; "Son"] i = Some (c_feature c) /\
                 nth_error values i = Some (c_shap c) /\
                 nth_error x i = Some (c_value c))
              [0%nat; 1%nat] listed /\
      Permutation listed pair_contributions.
Proof.
  destruct pair_local_run as (txt & Hrun).
  assert (body (fst (explain_local demo_pair pair_request 0%nat)) =
          LocalBody 40 pair_contributions txt)
    as H by (rewrite Hrun; reflexivity).
  exists txt. split; [reflexivity|]. split; [exact H|].
  destruct (local_contributions_cover_schema demo_pair pair_request 0%nat 40
              pair_contributions txt ["Age"; "Son"] eq_refl H)
    as (Hperm & Hlen & s & input_data & processed & scaled & x & ex & g1
        & values & listed & Hs & Hi & Hp & Ht & Hx & Hex & Hv & Hpos & Hl).
  split; [exact Hperm|]. split; [exact Hlen|].
  inversion Hs; subst s. inversion Hi; subst input_data.
  inversion Hp; subst processed. inversion Ht; subst scaled.
  inversion Hx; subst x. inversion Hex; subst ex.
  exists [40; 2], values, listed.
  split; [reflexivity|]. split; [exact Hv|]. split; [exact Hpos|exact Hl].
Defined.

Lemma sum_nonneg (l : list R) : Forall (fun v => 0 <= v) l -> 0 <= sum l.
Proof.
  induction 1 as [|v l Hv _ IH]; simpl; lra.
Qed.

Lemma mean_nonneg (l : list R) : Forall (fun v => 0 <= v) l -> 0 <= mean l.
Proof.
  intros H. unfold mean, Rdiv.
  apply Rmult_le_pos; [now apply sum_nonneg|].
  destruct l as [|v l]; [simpl; rewrite Rinv_0; lra|].
  left. apply Rinv_0_lt_compat. apply lt_0_INR. simpl. lia.
Qed.

Lemma mean_axis0_abs_nonneg (values : list (list R)) :
  Forall (fun v => 0 <= v) (mean_axis0 (map (map Rabs) values)).
Proof.
  unfold mean_axis0. apply Forall_map, Forall_forall. intros i _.
  apply mean_nonneg. rewrite map_map. apply Forall_map, Forall_forall.
  intros r _.
  destruct (nth_in_or_default i (map Rabs r) 0) as [Hin | Hd]; [|rewrite Hd; lra].
  apply in_map_iff in Hin as (v & <- & _). apply Rabs_pos.
Qed.

(** What a freshly computed answer of the global endpoint went through. *)
Lemma global_listing E now_load now_save fs g e :
  body (fst (fst (explain_global E now_load now_save fs g))) = GlobalBody e ->
  cached e = false ->
  exists cols ex bg values importance,
    feature_columns E = Some cols /\
    shap_values ex bg = Ok values /\
    for_each
      (fun i =>
         name <-- get cols i ;;
         v <-- get (mean_axis0 (map (map Rabs) values)) i ;;
         Ok (name, v))
      (seq 0 (length cols)) = Ok importance /\
    e = {| feature_importance := sort (key_desc snd) importance;
           explainer_type := "LinearExplainer";
           sample_size := Z.of_nat (length bg);
           cached := false |}.
Proof.
  unfold explain_global, explain_global_try.
  destruct (model E) as [m|]; [|discriminate].
  destruct (scaler E) as [s|]; [|discriminate].
  destruct (feature_columns E) as [cols|]; [|discriminate].
  destruct (load_cached_global_explanation now_load (cache fs)) as [e0|].
  { simpl. intros H. inversion H; subst. discriminate. }
  destruct (negb (SHAP_AVAILABLE E)); [discriminate|].
  unfold bind, ret, lift.
  destruct (get_shap_explainer E g) as [[[ex|]|] g1];
    [|discriminate|discriminate].
  destruct (generate_background_data E 100 g1) as [[[bg|]|] g2];
    [|discriminate|discriminate].
  destruct (shap_values ex bg) as [values|] eqn:Hv; [|discriminate].
  destruct (for_each _ _) as [importance|] eqn:Hi; [|discriminate].
  simpl. intros H _. inversion H; subst.
  exists cols, ex, bg, values, importance. auto.
Qed.

(** X12.  A freshly computed answer of GET /explain/global (cached=false)
    lists every feature of the schema exactly once, names LinearExplainer
    as its explainer type, and gives every feature a mean absolute
    attribution that is not negative. *)
Theorem global_importance_covers_schema E now_load now_save fs g e cols :
  feature_columns E = Some cols ->
  body (fst (fst (explain_global E now_load now_save fs g))) = GlobalBody e ->
  cached e = false ->
  Permutation (map fst (feature_importance e)) cols /\
  explainer_type e = "LinearExplainer" /\
  Forall (fun entry => 0 <= snd entry) (feature_importance e).
Proof.
  intros Hc H Hfresh.
  destruct (global_listing _ _ _ _ _ _ H Hfresh)
    as (cols' & ex & bg & values & importance & Hc' & _ & Hl & ->).
  rewrite Hc in Hc'. inversion Hc'; subst cols'. cbn [feature_importance
    explainer_type].
  pose proof (sort_perm (key_desc snd) importance) as Hperm.
  assert (Forall2
            (fun i (entry : string * R) =>
               nth_error cols i = Some (fst entry) /\ 0 <= snd entry)
            (seq 0 (length cols)) importance) as Hpos.
  { eapply Forall2_impl; [|exact (for_each_Forall2 _ _ _ Hl)].
    intros i entry Hi. unfold and_then in Hi.
    destruct (get cols i) as [name|] eqn:Hn; [|discriminate].
    destruct (get (mean_axis0 _) i) as [v|] eqn:Hv; [|discriminate].
    inversion Hi; subst. cbn [fst snd]. split; [apply get_nth_error; exact Hn|].
    apply get_nth_error in Hv. apply nth_error_In in Hv.
    pose proof (mean_axis0_abs_nonneg values) as Hall.
    rewrite Forall_forall in Hall. now apply Hall. }
  split; [|split; [reflexivity|]].
  - assert (map fst importance = cols) as Hnames.
    { apply (names_of_positions fst cols []). simpl.
      eapply Forall2_impl; [|exact Hpos]. now intros i entry [Hi _]. }
    rewrite <- Hnames. apply Permutation_map, Permutation_sym, Hperm.
  - rewrite <- Hperm. apply Forall_forall. intros entry Hin.
    destruct (Forall2_In_right _ _ _ Hpos entry Hin) as (i & _ & _ & Hv).
    exact Hv.
Qed.

Lemma global_importance_covers_schema_witness :
  feature_columns demo = Some ["Age"] /\
  body (fst (fst (explain_global demo 0 0 no_cache 0%nat)))
    = GlobalBody demo_explanation /\
  cached demo_explanation = false /\
  Permutation (map fst demo_importance) ["Age"] /\
  Forall (fun entry => 0 <= snd entry) demo_importance.
Proof.
  assert (body (fst (fst (explain_global demo 0 0 no_cache 0%nat)))
          = GlobalBody demo_explanation) as H
    by (rewrite demo_global_run; reflexivity).
  split; [reflexivity|]. split; [exact H|]. split; [reflexivity|].
  destruct (global_importance_covers_schema demo 0%Z 0%Z no_cache 0%nat
              demo_explanation ["Age"] eq_refl H eq_refl)
    as (Hperm & _ & Hpos).
  split; [exact Hperm|exact Hpos].
Defined.

(** ** Feature names of POST /explain/lime *)

Lemma str_nat_inj (i j : nat) : str_nat i = str_nat j -> i = j.
Proof.
  unfold str_nat. intros H.
  apply DecimalNat.Unsigned.to_uint_inj.
  assert (Some (Nat.to_uint i) = Some (Nat.to_uint j)) as Hs.
  { rewrite <- !NilEmpty.usu. now rewrite H. }
  now inversion Hs.
Qed.

Lemma str_nat_eqb (i j : nat) : String.eqb (str_nat i) (str_nat j) = Nat.eqb i j.
Proof.
  destruct (Nat.eqb_spec i j) as [->|Hne]; [apply String.eqb_refl|].
  apply String.eqb_neq. intros H. now apply str_nat_inj in H.
Qed.

Lemma find_feature_index (cols : list string) :
  forall k i,
    find_feature k cols (IdIndex (k + i)) = nth_error cols i.
Proof.
  induction cols as [|col cols IH]; intros k i; simpl.
  - now destruct i.
  - rewrite str_nat_eqb, orb_false_r.
    destruct i as [|i]; simpl.
    + now rewrite Nat.add_0_r, Nat.eqb_refl.
    + destruct (Nat.eqb_spec k (k + S i)) as [Heq|_]; [lia|].
      rewrite <- (IH (S k) i). f_equal. f_equal. lia.
Qed.

(** X13.  A feature that lime names by its position is given the name the
    schema has at that position; a position outside the schema is kept as
    its decimal string. *)
Theorem lime_position_names_schema_feature cols i :
  feature_name cols (IdIndex i) =
  match nth_error cols i with
  | Some col => col
  | None => str_nat i
  end.
Proof.
  unfold feature_name.
  pose proof (find_feature_index cols 0 i) as H. cbn [Nat.add] in H.
  now rewrite H.
Qed.

Lemma find_feature_member (cols : list string) (f : lime_id) :
  forall k name, find_feature k cols f = Some name -> In name cols.
Proof.
  induction cols as [|col cols IH]; intros k name; simpl; [discriminate|].
  destruct (_ || _).
  - intros H; inversion H; subst. now left.
  - intros H. right. eauto.
Qed.

Lemma find_feature_plain_name (cols : list string) (s : string) :
  forall k,
    (forall i, (i < length cols)%nat -> str_nat (k + i) <> s) ->
    find_feature k cols (IdName s) = if mem s cols then Some s else None.
Proof.
  induction cols as [|col cols IH]; intros k Hplain; [reflexivity|].
  simpl.
  assert (String.eqb (str_nat k) s = false) as ->.
  { apply String.eqb_neq. rewrite <- (Nat.add_0_r k).
    apply Hplain. simpl. lia. }
  simpl. rewrite (String.eqb_sym s col).
  destruct (String.eqb_spec col s) as [->|_]; [reflexivity|].
  apply IH. intros i Hi. replace (S k + i)%nat with (k + S i)%nat by lia.
  apply Hplain. simpl. lia.
Qed.

(** X14.  A feature that lime names by a string is given a name of the
    schema or that very string, never anything else.  When the string is
    not the decimal form of a position of the schema, the name is the
    string itself.  When it is the decimal form of a position and none of
    the columns before that position is called so, the name is the column
    at that position: a string that reads as a position is taken as one. *)
Theorem lime_string_names cols s :
  (In (feature_name cols (IdName s)) cols \/
   feature_name cols (IdName s) = s) /\
  ((forall i, (i < length cols)%nat -> str_nat i <> s) ->
   feature_name cols (IdName s) = s) /\
  (forall i col,
      s = str_nat i ->
      nth_error cols i = Some col ->
      (forall j, (j < i)%nat -> nth_error cols j <> Some s) ->
      feature_name cols (IdName s) = col).
Proof.
  unfold feature_name. repeat split.
  - destruct (find_feature 0 cols (IdName s)) as [name|] eqn:Hf;
      [left; eapply find_feature_member; eauto|now right].
  - intros Hplain.
    rewrite (find_feature_plain_name cols s 0 Hplain).
    now destruct (mem s cols).
  - intros i col -> Hcol Hbefore.
    assert (forall cs k,
               nth_error cs i = Some col ->
               (forall j, (j < i)%nat -> nth_error cs j <> Some (str_nat (k + i))) ->
               find_feature k cs (IdName (str_nat (k + i))) = Some col) as Hgen.
    { clear. induction i as [|i IH]; intros [|c cs] k Hc Hb;
        try discriminate; simpl in *.
      - inversion Hc; subst. now rewrite Nat.add_0_r, String.eqb_refl.
      - rewrite str_nat_eqb.
        destruct (Nat.eqb_spec k (k + S i)) as [Heq|_]; [lia|]. simpl.
        destruct (String.eqb_spec c (str_nat (k + S i))) as [Heq|_].
        + exfalso. apply (Hb 0%nat); [lia|]. simpl. now rewrite Heq.
        + replace (k + S i)%nat with (S k + i)%nat in * by lia.
          apply IH; [assumption|].
          intros j Hj. apply (Hb (S j)). lia. }
    pose proof (Hgen cols 0%nat Hcol Hbefore) as H. cbn [Nat.add] in H.
    now rewrite H.
Qed.

Lemma lime_string_names_witness :
  str_nat 1 = "1" /\
  nth_error ["Age"; "Son"] 1 = Some "Son" /\
  feature_name ["Age"; "Son"] (IdName "1") = "Son" /\
  feature_name ["Age"; "Son"] (IdName "Pet") = "Pet".
Proof.
  destruct (lime_string_names ["Age"; "Son"] "1") as (_ & _ & Hpos).
  destruct (lime_string_names ["Age"; "Son"] "Pet") as (_ & Hplain & _).
  split; [reflexivity|]. split; [reflexivity|]. split.
  - apply (Hpos 1%nat "Son"); [reflexivity|reflexivity|].
    intros j Hj. assert (j = 0%nat) as -> by lia. discriminate.
  - apply Hplain. intros i Hi.
    destruct i as [|[|i]]; [discriminate|discriminate|simpl in Hi; lia].
Defined.

(** X15.  A successful POST /explain/lime reports what lime's explanation
    lists, entry by entry: as many features, the same weights in the same
    order, each under the name resolved from lime's identifier, and the
    explanation's score.  The explanation was asked of an explainer built
    on the schema, for ten features. *)
Theorem lime_answer_follows_explanation E data g p tf sc cols :
  feature_columns E = Some cols ->
  body (fst (explain_lime E data g)) = LimeBody p tf sc ->
  exists m bg lime x explained g1 g2,
    model E = Some m /\
    LimeTabularExplainer E bg cols = Ok lime /\
    explain_instance lime x m 10 g1 = (Ok explained, g2) /\
    map snd tf = map snd (as_list explained) /\
    map fst tf = map (fun entry => feature_name cols (fst entry))
                     (as_list explained) /\
    length tf = length (as_list explained) /\
    sc = score explained.
Proof.
  intros Hc. unfold explain_lime, explain_lime_try. rewrite Hc.
  unfold bind, ret, lift.
  destruct (model E) as [m|]; [|discriminate].
  destruct (scaler E) as [s|]; [|discriminate].
  destruct (negb (LIME_AVAILABLE E)); [discriminate|].
  destruct (input data) as [input_data|]; [|discriminate].
  destruct (preprocess_input E input_data) as [processed|]; [|discriminate].
  destruct (transform s [processed]) as [scaled|]; [|discriminate].
  destruct (predict m scaled) as [predictions|]; [|discriminate].
  destruct (get predictions 0) as [prediction|]; [|discriminate].
  destruct (generate_background_data E 100 g) as [[[bg|]|] g1];
    [|discriminate|discriminate].
  destruct (LimeTabularExplainer E bg cols) as [lime|] eqn:Hlime;
    [|discriminate].
  destruct (get scaled 0) as [x|]; [|discriminate].
  destruct (explain_instance lime x m 10 g1) as [[explained|] g2] eqn:Hex;
    [|discriminate].
  simpl. intros H. inversion H; subst.
  exists m, bg, lime, x, explained, g1, g2.
  repeat split; auto.
  - rewrite map_map. apply map_ext. now intros [id w].
  - rewrite map_map. apply map_ext. now intros [id w].
  - now rewrite length_map.
Qed.

Lemma demo_lime_run :
  explain_lime demo demo_request 0%nat =
  (jsonify (LimeBody 40 [("Age", 1)] 1), 200%nat).
Proof. reflexivity. Qed.

Lemma lime_answer_follows_explanation_witness :
  feature_columns demo = Some ["Age"] /\
  body (fst (explain_lime demo demo_request 0%nat))
    = LimeBody 40 [("Age", 1)] 1 /\
  exists explained,
    map snd [("Age", 1)] = map snd (as_list explained) /\
    1 = score explained.
Proof.
  assert (body (fst (explain_lime demo demo_request 0%nat))
          = LimeBody 40 [("Age", 1)] 1) as H
    by (rewrite demo_lime_run; reflexivity).
  split; [reflexivity|]. split; [exact H|].
  destruct (lime_answer_follows_explanation demo demo_request 0%nat 40
              [("Age", 1)] 1 ["Age"] eq_refl H)
    as (m & bg & lime & x & explained & g1 & g2 & _ & _ & _ & Hw & _ & _ & Hs).
  exists explained. split; [exact Hw|exact Hs].
Defined.

(** ** What the counterfactual search proposes *)

Lemma fold_res_invariant_in {A B} (P : B -> Prop) (f : B -> A -> res B)
    (l : list A) :
  (forall b a b', In a l -> P b -> f b a = Ok b' -> P b') ->
  forall b r, P b -> fold_res f l b = Ok r -> P r.
Proof.
  induction l as [|a l IH]; simpl; intros Hstep b r Hb Hr.
  - now inversion Hr; subst.
  - unfold and_then in Hr. destruct (f b a) as [b'|] eqn:Hf; [|discriminate].
    eapply IH; [|eapply Hstep; eauto|exact Hr].
    intros b0 a0 b0' Hin. apply Hstep. now right.
Qed.

Lemma index_of_member (feat : string) (cols : list string) :
  mem feat cols = true ->
  nth_error cols (index feat cols) = Some feat.
Proof.
  unfold mem. induction cols as [|c cols IH]; simpl; [discriminate|].
  rewrite (String.eqb_sym feat c).
  destruct (String.eqb_spec c feat) as [->|_]; [reflexivity|]. exact IH.
Qed.

Lemma feature_mapping_entries (cols : list string) (feat : string) (idx : nat) :
  In (feat, idx) (feature_mapping cols) ->
  In feat actionable_features /\ idx = index feat cols /\
  nth_error cols idx = Some feat.
Proof.
  unfold feature_mapping. intros H.
  apply in_map_iff in H as (f & Heq & Hin). inversion Heq; subst.
  apply filter_In in Hin as [Hact Hmem].
  repeat split; auto. now apply index_of_member.
Qed.

Lemma try_delta_proposed cols bg m x o name idx col cur cands mult cands' :
  In name actionable_features -> idx = index name cols ->
  nth_error cols idx = Some name -> nth_error x idx = Some cur ->
  column bg idx = Ok col -> In mult delta_mults ->
  Forall (proposed cols bg x) cands ->
  try_delta m x o name idx (std col) cur cands mult = Ok cands' ->
  Forall (proposed cols bg x) cands'.
Proof.
  intros Hact Hidx Hname Hcur Hcol Hmult Hall. unfold try_delta, and_then.
  destruct (set_item x idx (cur + mult * std col)) as [modified|];
    [|discriminate].
  destruct (predict m [modified]) as [predictions|]; [|discriminate].
  destruct (get predictions 0) as [new_pred|]; [|discriminate].
  destruct (Rltb new_pred o); intros H; inversion H; subst; auto.
  apply Forall_app; split; [assumption|].
  constructor; [|constructor].
  exists (index name cols), col, mult; simpl. repeat split; auto.
Qed.

Lemma try_feature_proposed cols bg m scaled o x cands entry cands' :
  In entry (feature_mapping cols) ->
  get scaled 0 = Ok x ->
  Forall (proposed cols bg x) cands ->
  try_feature m bg scaled o cands entry = Ok cands' ->
  Forall (proposed cols bg x) cands'.
Proof.
  intros Hin Hx Hall. unfold try_feature. destruct entry as [name idx].
  apply feature_mapping_entries in Hin as (Hact & Hidx & Hname).
  rewrite Hx; cbn [and_then].
  destruct (Nat.leb (length x) idx); [intros H; now inversion H; subst|].
  destruct (column bg idx) as [col|] eqn:Hcol; cbn [and_then];
    [|discriminate].
  destruct (get x idx) as [cur|] eqn:Hcur; cbn [and_then]; [|discriminate].
  apply get_nth_error in Hcur.
  apply fold_res_invariant_in; [|assumption].
  intros b mult b' Hmult Hb. now apply (try_delta_proposed cols bg).
Qed.

(** X16.  Every candidate of POST /explain/cf changes an actionable feature
    that is in the schema: its original value is the coordinate of the
    scaled input at the first position of that feature in the schema, and
    its change is -0.5, -1, -2, 0.5, 1 or 2 times the standard deviation of
    that column in the 100-sample background. *)
Theorem candidates_change_actionable_features E data g o t cs cols :
  feature_columns E = Some cols ->
  body (fst (explain_counterfactual E data g)) = CfBody o t cs ->
  exists s input_data processed scaled bg g',
    scaler E = Some s /\
    input data = Some input_data /\
    preprocess_input E input_data = Ok processed /\
    transform s [processed] = Ok scaled /\
    generate_background_data E 100 g = (Ok (Some bg), g') /\
    Forall (fun c => exists x, get scaled 0 = Ok x /\ proposed cols bg x c) cs.
Proof.
  intros Hc H. apply cf_inversion in H.
  destruct H as (m & s & cols' & input_data & processed & scaled & predictions
                 & bg & g' & found & _ & Hs & Hc' & Hi & Hp & Ht & _ & _ & Hbg
                 & Hfound & _ & Hcs & _).
  rewrite Hc in Hc'. inversion Hc'; subst cols'.
  exists s, input_data, processed, scaled, bg, g'. repeat split; auto.
  subst cs. apply Forall_firstn_sort.
  destruct (get scaled 0) as [x|e] eqn:Hx.
  - assert (Forall (proposed cols bg x) found) as Hall.
    { revert Hfound. apply fold_res_invariant_in; [|constructor].
      intros b a b' Hin Hb. now apply (try_feature_proposed cols bg). }
    eapply Forall_impl; [|exact Hall]. intros c Hp'. now exists x.
  - destruct (feature_mapping cols) as [|[name idx] mapping]; simpl in Hfound.
    + inversion Hfound; subst. constructor.
    + unfold try_feature in Hfound. rewrite Hx in Hfound. discriminate.
Qed.

Lemma candidates_change_actionable_features_witness :
  feature_columns demo = Some ["Age"] /\
  body (fst (explain_counterfactual demo demo_request 0%nat)) =
    CfBody 40 (40 * 0.8) demo_candidates /\
  Forall (fun c => In (feature c) actionable_features /\
                   nth_error ["Age"] (index (feature c) ["Age"])
                     = Some (feature c)) demo_candidates.
Proof.
  assert (body (fst (explain_counterfactual demo demo_request 0%nat)) =
          CfBody 40 (40 * 0.8) demo_candidates) as H
    by (rewrite demo_counterfactual_run; reflexivity).
  split; [reflexivity|]. split; [exact H|].
  destruct (candidates_change_actionable_features demo demo_request 0%nat 40
              (40 * 0.8) demo_candidates ["Age"] eq_refl H)
    as (s & input_data & processed & scaled & bg & g' & _ & _ & _ & _ & _
        & Hall).
  eapply Forall_impl; [|exact Hall].
  intros c (x & _ & idx & col & mult & Hact & Hidx & Hname & _).
  subst idx. split; [exact Hact|exact Hname].
Defined.

Lemma try_delta_no_gain m x o name idx sd cur mult cands' :
  (forall X predictions p,
      predict m X = Ok predictions -> In p predictions -> o <= p) ->
  try_delta m x o name idx sd cur [] mult = Ok cands' -> cands' = [].
Proof.
  intros Hm. unfold try_delta, and_then.
  destruct (set_item x idx (cur + mult * sd)) as [modified|]; [|discriminate].
  destruct (predict m [modified]) as [predictions|] eqn:Hp; [|discriminate].
  destruct (get predictions 0) as [new_pred|] eqn:Hn; [|discriminate].
  apply get_nth_error, nth_error_In in Hn.
  pose proof (Hm _ _ _ Hp Hn) as Hle.
  apply Rltb_false in Hle. rewrite Hle. intros H; now inversion H.
Qed.

(** X17.  When no row makes the model predict less than the original
    prediction, POST /explain/cf still succeeds and its list of candidates
    is empty: a change that leaves the prediction equal or raises it is
    never proposed. *)
Theorem no_gain_no_candidates E data g o t cs m :
  model E = Some m ->
  (forall X predictions p,
      predict m X = Ok predictions -> In p predictions -> o <= p) ->
  body (fst (explain_counterfactual E data g)) = CfBody o t cs ->
  cs = [].
Proof.
  intros Hm Hflat H. apply cf_inversion in H.
  destruct H as (m' & s & cols & input_data & processed & scaled & predictions
                 & bg & g' & found & Hm' & _ & _ & _ & _ & _ & _ & _ & _
                 & Hfound & _ & Hcs & _).
  rewrite Hm in Hm'. inversion Hm'; subst m'.
  assert (found = []) as ->.
  { revert Hfound.
    apply (fold_res_invariant (fun b => b = [])); [|reflexivity].
    intros b [name idx] b' -> Hstep. unfold try_feature in Hstep.
    unfold and_then in Hstep.
    destruct (get scaled 0) as [x|]; [|discriminate].
    destruct (Nat.leb (length x) idx); [now inversion Hstep|].
    destruct (column bg idx) as [col|]; [|discriminate].
    destruct (get x idx) as [cur|]; [|discriminate].
    revert Hstep.
    apply (fold_res_invariant (fun b => b = [])); [|reflexivity].
    intros b0 mult b0' ->. now apply try_delta_no_gain. }
  subst cs. reflexivity.
Qed.

Lemma flat_try_delta sd cands mult :
  try_delta {| predict := fun X => Ok (map (fun _ => 7) X); has_coef := true |}
    [40] 7 "Age" 0 sd 40 cands mult = Ok cands.
Proof.
  unfold try_delta; simpl.
  replace (Rltb 7 7) with false; [reflexivity|].
  symmetry. apply Rltb_false. lra.
Qed.

Lemma flat_counterfactual_run :
  explain_counterfactual (with_constant_model demo 7) demo_request 0%nat =
  (jsonify (CfBody 7 (7 * 0.8) []), 200%nat).
Proof.
  unfold explain_counterfactual, explain_counterfactual_try.
  cbn [with_constant_model demo model scaler feature_columns input
       demo_request target preprocess_input demo_scaler transform predict].
  unfold bind at 1. cbn [lift map snd hd].
  unfold bind at 1. cbn [lift].
  unfold bind at 1. cbn [lift map].
  unfold bind at 1. cbn [lift get nth_error].
  unfold bind at 1.
  replace (generate_background_data (with_constant_model demo 7) 100 0%nat)
    with (Ok (Some demo_background), 200%nat) by reflexivity.
  unfold bind at 1. unfold lift.
  change (feature_mapping ["Age"]) with [("Age", 0%nat)].
  cbn [fold_res and_then]. unfold try_feature at 1.
  cbn [get nth_error and_then length Nat.leb].
  rewrite demo_column_run. cbn [and_then].
  unfold delta_mults. cbn [fold_res and_then].
  repeat (rewrite flat_try_delta; cbn [and_then]).
  reflexivity.
Qed.

Lemma no_gain_no_candidates_witness :
  body (fst (explain_counterfactual (with_constant_model demo 7)
               demo_request 0%nat)) = CfBody 7 (7 * 0.8) [] /\
  (forall X predictions p,
      Ok (map (fun _ : list R => 7) X) = Ok predictions ->
      In p predictions -> 7 <= p) /\
  @nil candidate = [].
Proof.
  assert (body (fst (explain_counterfactual (with_constant_model demo 7)
                       demo_request 0%nat)) = CfBody 7 (7 * 0.8) []) as H
    by (rewrite flat_counterfactual_run; reflexivity).
  assert (forall X predictions p,
             Ok (map (fun _ : list R => 7) X) = Ok predictions ->
             In p predictions -> 7 <= p) as Hflat.
  { intros X predictions p Hp Hin. inversion Hp; subst.
    apply in_map_iff in Hin as (r & <- & _). lra. }
  split; [exact H|]. split; [exact Hflat|].
  exact (no_gain_no_candidates (with_constant_model demo 7) demo_request 0%nat
           7 (7 * 0.8) [] _ eq_refl Hflat H).
Defined.

(** ** Truncation keeps the best candidates *)

Lemma ranks_before_trans (a b c : candidate) :
  ranks_before a b -> ranks_before b c -> ranks_before a c.
Proof. unfold ranks_before. intros [H1|[H1 H1']] [H2|[H2 H2']]; lra. Qed.

Lemma strongly_sorted_split {A} (R : A -> A -> Prop) (n : nat) :
  forall l,
    StronglySorted R l ->
    forall a b, In a (firstn n l) -> In b (skipn n l) -> R a b.
Proof.
  induction n as [|n IH]; intros l Hs a b Ha Hb; [now elim Ha|].
  destruct l as [|x l]; [now elim Ha|].
  apply StronglySorted_inv in Hs as [Hs Hx].
  simpl in Ha, Hb. destruct Ha as [<-|Ha].
  - rewrite Forall_forall in Hx. apply Hx.
    rewrite <- (firstn_skipn n l). apply in_or_app. now right.
  - eapply IH; eauto.
Qed.

Lemma ranked_strongly (l : list candidate) :
  StronglySorted ranks_before (sort cf_precedes l).
Proof.
  apply Sorted_StronglySorted.
  - intros a b c. apply ranks_before_trans.
  - eapply Sorted_weaken; [|apply sort_sorted, cf_precedes_asym].
    intros a b. apply cf_in_order.
Qed.

(** X18.  The candidates POST /explain/cf returns are the best of those its
    search accepted: the accepted candidates, put in ranking order, are
    the returned ones followed by the dropped ones, and every returned
    candidate ranks before every dropped one (a larger reduction, or the
    same reduction at no larger a distance).  When at most five were
    accepted, all of them are returned. *)
Theorem truncation_keeps_best E data g o t cs :
  body (fst (explain_counterfactual E data g)) = CfBody o t cs ->
  exists m cols scaled bg g' found ranked,
    model E = Some m /\ feature_columns E = Some cols /\
    generate_background_data E 100 g = (Ok (Some bg), g') /\
    fold_res (try_feature m bg scaled o) (feature_mapping cols) [] = Ok found /\
    Permutation found ranked /\
    cs = firstn 5 ranked /\
    (forall c d, In c cs -> In d (skipn 5 ranked) -> ranks_before c d) /\
    ((length found <= 5)%nat -> Permutation found cs).
Proof.
  intros H. apply cf_inversion in H.
  destruct H as (m & s & cols & input_data & processed & scaled & predictions
                 & bg & g' & found & Hm & _ & Hc & _ & _ & _ & _ & _ & Hbg
                 & Hfound & _ & Hcs & _).
  exists m, cols, scaled, bg, g', found, (sort cf_precedes found).
  pose proof (sort_perm cf_precedes found) as Hperm.
  repeat split; auto.
  - subst cs. intros c d. apply strongly_sorted_split, ranked_strongly.
  - intros Hlen. subst cs. rewrite firstn_all2; [exact Hperm|].
    now rewrite <- (Permutation_length Hperm).
Qed.

Lemma truncation_keeps_best_witness :
  body (fst (explain_counterfactual demo demo_request 0%nat)) =
    CfBody 40 (40 * 0.8) demo_candidates /\
  exists found, Permutation found demo_candidates /\ length found = 3%nat.
Proof.
  assert (body (fst (explain_counterfactual demo demo_request 0%nat)) =
          CfBody 40 (40 * 0.8) demo_candidates) as H
    by (rewrite demo_counterfactual_run; reflexivity).
  split; [exact H|].
  destruct (truncation_keeps_best demo demo_request 0%nat 40 (40 * 0.8)
              demo_candidates H)
    as (m & cols & scaled & bg & g' & found & ranked & _ & _ & _ & _ & Hperm
        & Hcs & _ & _).
  exists found.
  assert (length ranked = 3%nat) as Hlen.
  { unfold demo_candidates in Hcs.
    destruct ranked as [|c1 [|c2 [|c3 [|c4 ranked]]]];
      simpl in Hcs; try discriminate Hcs; reflexivity. }
  assert (Permutation found demo_candidates) as Hfound.
  { rewrite Hcs. rewrite firstn_all2 by (rewrite Hlen; auto). exact Hperm. }
  split; [exact Hfound|].
  now rewrite (Permutation_length Hfound).
Defined.

(** ** The synthetic samples *)

(** X19.  A synthetic sample never fails to be drawn, and holds a value for
    exactly the features of the schema the sampler has a range or a set of
    values for, numeric features first: a feature of the schema the sampler
    does not know is left out, and nothing outside the schema is put in. *)
Theorem samples_hold_known_schema_features E cols g :
  exists s g',
    draw_sample E cols g = (Ok s, g') /\
    map fst s =
      filter (fun k => mem k cols)
             (map fst numeric_features ++ map fst categorical_defaults) /\
    Forall (fun k => In k cols /\ known k) (map fst s).
Proof.
  unfold draw_sample, bind, ret.
  destruct (fill_total cols
              (fun '(min_val, max_val) => draw (uniform E min_val max_val))
              numeric_features) with (g := g) as (num & g1 & Hnum).
  { intros [lo hi] g0. apply draw_total. }
  rewrite Hnum.
  destruct (fill_total cols (fun values => draw (choice E values))
              categorical_defaults) with (g := g1) as (cat & g2 & Hcat).
  { intros values g0. apply draw_total. }
  rewrite Hcat.
  assert (map fst (num ++ cat) =
          filter (fun k => mem k cols)
                 (map fst numeric_features ++ map fst categorical_defaults))
    as Hkeys.
  { rewrite map_app, filter_app.
    now rewrite (fill_names _ _ _ _ _ _ Hnum), (fill_names _ _ _ _ _ _ Hcat). }
  exists (num ++ cat)%list, g2. repeat split; auto.
  rewrite Hkeys. apply Forall_forall. intros k Hk.
  apply filter_In in Hk as [Hin Hmem]. split; [now apply mem_In|].
  unfold known. apply in_app_or in Hin. exact Hin.
Qed.

(** ** An empty schema *)

(** X20.  With a schema that is loaded but empty, no background can be
    sampled.  For an input that is preprocessed, scaled and predicted,
    POST /explain/cf and (with lime available) POST /explain/lime answer
    500 "Failed to generate background data"; with shap available, POST
    /explain/local and, without a valid cache entry, GET /explain/global
    answer 500 "Failed to create SHAP explainer".  Nothing is drawn. *)
Theorem empty_schema_answers_500 E now_load now_save fs data g m s
    input_data processed scaled predictions prediction :
  model E = Some m -> scaler E = Some s -> feature_columns E = Some [] ->
  input data = Some input_data ->
  preprocess_input E input_data = Ok processed ->
  transform s [processed] = Ok scaled ->
  predict m scaled = Ok predictions ->
  get predictions 0 = Ok prediction ->
  explain_counterfactual E data g =
    (error_response "Failed to generate background data" 500, g) /\
  (LIME_AVAILABLE E = true ->
   explain_lime E data g =
     (error_response "Failed to generate background data" 500, g)) /\
  (SHAP_AVAILABLE E = true ->
   explain_local E data g =
     (error_response "Failed to create SHAP explainer" 500, g) /\
   (load_cached_global_explanation now_load (cache fs) = None ->
    explain_global E now_load now_save fs g =
      (error_response "Failed to create SHAP explainer" 500, fs, g))).
Proof.
  intros Hm Hs Hc Hi Hp Ht Hpred Hget.
  assert (generate_background_data E 100 g = (Ok None, g)) as Hbg
    by (apply background_no_schema; now right).
  assert (SHAP_AVAILABLE E = true ->
          get_shap_explainer E g = (Ok None, g)) as Hex.
  { intros Hshap. unfold get_shap_explainer.
    rewrite Hshap, Hm, Hs. cbn [negb]. destruct (has_coef m); [|reflexivity].
    unfold bind. now rewrite Hbg. }
  repeat split.
  - unfold explain_counterfactual, explain_counterfactual_try.
    rewrite Hm, Hs, Hc, Hi. unfold bind, lift.
    now rewrite Hp, Ht, Hpred, Hget, Hbg.
  - intros Hlime. unfold explain_lime, explain_lime_try.
    rewrite Hm, Hs, Hc, Hi, Hlime. unfold bind, lift. cbn [negb].
    now rewrite Hp, Ht, Hpred, Hget, Hbg.
  - unfold explain_local, explain_local_try.
    rewrite Hm, Hs, Hc, Hi. unfold bind, lift.
    rewrite Hp, Ht, Hpred, Hget, H. cbn [negb]. now rewrite (Hex H).
  - intros Hmiss. unfold explain_global, explain_global_try.
    rewrite Hm, Hs, Hc, Hmiss, H. cbn [negb]. unfold bind.
    now rewrite (Hex H).
Qed.

Lemma empty_schema_answers_500_witness :
  feature_columns (with_empty_schema demo) = Some [] /\
  explain_counterfactual (with_empty_schema demo) demo_request 0%nat =
    (error_response "Failed to generate background data" 500, 0%nat) /\
  explain_local (with_empty_schema demo) demo_request 0%nat =
    (error_response "Failed to create SHAP explainer" 500, 0%nat).
Proof.
  destruct (empty_schema_answers_500 (with_empty_schema demo) 0%Z 0%Z
              no_cache demo_request 0%nat demo_model demo_scaler
              [("Age", 40)] [40] [[40]] [40] 40
              eq_refl eq_refl eq_refl eq_refl eq_refl eq_refl eq_refl eq_refl)
    as (Hcf & _ & Hshap).
  split; [reflexivity|]. split; [exact Hcf|].
  exact (proj1 (Hshap eq_refl)).
Defined.

(** ** The sample size *)

Lemma sample_loop_length E cols (k : nat) :
  forall acc g bs g',
    sample_loop E cols k acc g = (Ok bs, g') ->
    length bs = (length acc + k)%nat.
Proof.
  induction k as [|k IH]; simpl; intros acc g bs g' H.
  - inversion H; subst. lia.
  - unfold bind, lift in H.
    destruct (draw_sample E cols g) as [[s|] g1]; [|discriminate].
    destruct (preprocess_input E s) as [r|]; [|discriminate].
    destruct (Nat.eqb_spec (length acc) 0) as [Hz|Hnz].
    + apply IH in H. simpl in H. lia.
    + destruct (vstack acc [r]) as [stacked|] eqn:Hst; [|discriminate].
      apply vstack_ok in Hst; subst stacked.
      apply IH in H. rewrite length_app in H. simpl in H. lia.
Qed.

Lemma background_rows E n g bg g' :
  (forall s m m',
      scaler E = Some s -> transform s m = Ok m' -> length m' = length m) ->
  generate_background_data E n g = (Ok (Some bg), g') ->
  Z.of_nat (length bg) = n.
Proof.
  intros Hshape Hrun.
  destruct (feature_columns E) as [[|c cs]|] eqn:Hc;
    try (unfold generate_background_data in Hrun; rewrite Hc in Hrun;
         discriminate).
  destruct (background_inversion E n g c cs bg g' Hc Hrun)
    as (num & cat & g1 & g2 & first & bs & Hnum & Hcat & Hfirst & Hloop
        & Hscale).
  pose proof (frame_row_positive E _ n g g1 g2 num cat first Hnum Hcat Hfirst)
    as Hn.
  apply sample_loop_length in Hloop. simpl in Hloop.
  destruct (scaler E) as [s|] eqn:Hs.
  - rewrite (Hshape s bs bg eq_refl Hscale), Hloop. lia.
  - subst bg. rewrite Hloop. lia.
Qed.

(** X22.  With a scaler that returns as many rows as it is given, a freshly
    computed answer of GET /explain/global (cached=false) reports a
    sample_size of 100. *)
Theorem global_sample_size_is_100 E now_load now_save fs g e :
  (forall s m m',
      scaler E = Some s -> transform s m = Ok m' -> length m' = length m) ->
  body (fst (fst (explain_global E now_load now_save fs g))) = GlobalBody e ->
  cached e = false ->
  sample_size e = 100%Z.
Proof.
  intros Hshape. unfold explain_global, explain_global_try.
  destruct (model E) as [m|]; [|discriminate].
  destruct (scaler E) as [s|] eqn:Hs; [|discriminate].
  destruct (feature_columns E) as [cols|]; [|discriminate].
  destruct (load_cached_global_explanation now_load (cache fs)) as [e0|].
  { simpl. intros H. inversion H; subst. discriminate. }
  destruct (negb (SHAP_AVAILABLE E)); [discriminate|].
  unfold bind, ret, lift.
  destruct (get_shap_explainer E g) as [[[ex|]|] g1];
    [|discriminate|discriminate].
  destruct (generate_background_data E 100 g1) as [[[bg|]|] g2] eqn:Hbg;
    [|discriminate|discriminate].
  destruct (shap_values ex bg) as [values|]; [|discriminate].
  destruct (for_each _ _) as [importance|]; [|discriminate].
  simpl. intros H _. inversion H; subst. simpl.
  apply (background_rows E 100 g1 bg g2); [|exact Hbg].
  intros s0 m0 m0' Hs0. rewrite Hs in Hs0. now apply Hshape.
Qed.

Lemma global_sample_size_is_100_witness :
  body (fst (fst (explain_global demo 0 0 no_cache 0%nat)))
    = GlobalBody demo_explanation /\
  cached demo_explanation = false /\
  sample_size demo_explanation = 100%Z.
Proof.
  assert (body (fst (fst (explain_global demo 0 0 no_cache 0%nat)))
          = GlobalBody demo_explanation) as H
    by (rewrite demo_global_run; reflexivity).
  split; [exact H|]. split; [reflexivity|].
  apply (global_sample_size_is_100 demo 0%Z 0%Z no_cache 0%nat
           demo_explanation); [|exact H|reflexivity].
  intros s m m' Hs Ht. inversion Hs; subst. simpl in Ht.
  now inversion Ht.
Defined.
